(** * Tonb Riders backend (app.py): signature validator, map builder, raid engine

    A shallow embedding of [validate_init_data], [require_auth] and of the
    route handlers [login], [editor_template], [maps_create], [raid_scout],
    [raid_start], [raid_dig], [raid_leave], [my_tombs] and [my_tombs_claim]
    of [app.py].

    - The persistence layer (psycopg2 over PostgreSQL) is a record of tables;
      a table keyed by its primary key is a finite map, the ledger is a list.
      A handler is a function from the committed store to a response and the
      next committed store. Writes made before a handler fails or returns
      without [conn.commit()] are rolled back; the values a SERIAL sequence
      has handed out are not.
    - The connection uses [RealDictCursor]: a fetched row is a dict keyed by
      the column names. Reading a column by its name is the projection of
      the row; reading by position ([map_data[0]] in [raid_start]) finds no
      key and raises [KeyError].
    - A TIMESTAMP column is read back as a [datetime] object, an integer
      count of microseconds here. [datetime.fromisoformat] takes a [str];
      on the [datetime] that [raid_dig] passes it raises [TypeError].
    - A REAL column holds a finite single-precision value, a Python float a
      finite double; both are the rationals they denote, and the arithmetic
      that the code performs on them rounds to nearest, ties to even
      ([Float]).
    - A TEXT column that holds JSON is [stored A]: either the value that
      [json.loads] yields, or text that does not parse.
    - A [str] is the string of its UTF-8 bytes; [bytes] is a list of bytes.
    - The library functions the validator calls ([parse_qsl], [int],
      [hmac.new], [json.loads]) are parameters of the validator; [Auth.Ref]
      and [Sha256] give executable instances to run it on payloads.
    - A query that selects one row out of several without an order
      ([fetchone] in [login] and [raid_scout]) and the sample of
      [random.sample] are parameters of the handler.
    - An exception that leaves a handler is answered by the
      [errorhandler(500)] of the application.
    - Foreign keys are not constraints on the store of the model; a
      property that needs the row a key refers to says so.
    - The rate limiter in front of the handlers is left out. *)

From Stdlib Require Import ZArith QArith List String Ascii Lia Bool.
From Stdlib Require Import Init.Byte Strings.Byte OrderedTypeEx.
From Stdlib Require Import DecimalString Qround.
From stdpp Require Import gmap strings list fin_maps sorting.
Local Open Scope Z_scope.

(** ** SHA-256 (FIPS 180-4) and HMAC (RFC 2104) *)

Module Sha256.

Definition byte_val (b : byte) : Z := Z.of_N (Byte.to_N b).

Definition byte_of_Z (z : Z) : byte :=
  match Byte.of_N (Z.to_N (z mod 256)) with
  | Some b => b
  | None => x00
  end.

Definition w32 (x : Z) : Z := x mod 2 ^ 32.
Definition add32 (x y : Z) : Z := w32 (x + y).
Definition rotr (n x : Z) : Z :=
  Z.lor (Z.shiftr x n) (w32 (Z.shiftl x (32 - n))).
Definition not32 (x : Z) : Z := Z.lxor x 0xffffffff.

Definition Ch (x y z : Z) : Z := Z.lxor (Z.land x y) (Z.land (not32 x) z).
Definition Maj (x y z : Z) : Z :=
  Z.lxor (Z.lxor (Z.land x y) (Z.land x z)) (Z.land y z).
Definition Sigma0 (x : Z) : Z :=
  Z.lxor (Z.lxor (rotr 2 x) (rotr 13 x)) (rotr 22 x).
Definition Sigma1 (x : Z) : Z :=
  Z.lxor (Z.lxor (rotr 6 x) (rotr 11 x)) (rotr 25 x).
Definition sigma0 (x : Z) : Z :=
  Z.lxor (Z.lxor (rotr 7 x) (rotr 18 x)) (Z.shiftr x 3).
Definition sigma1 (x : Z) : Z :=
  Z.lxor (Z.lxor (rotr 17 x) (rotr 19 x)) (Z.shiftr x 10).

(** The first 64 primes. *)
Definition primes : list Z :=
  [2; 3; 5; 7; 11; 13; 17; 19; 23; 29; 31; 37; 41; 43; 47; 53; 59; 61; 67;
   71; 73; 79; 83; 89; 97; 101; 103; 107; 109; 113; 127; 131; 137; 139; 149;
   151; 157; 163; 167; 173; 179; 181; 191; 193; 197; 199; 211; 223; 227;
   229; 233; 239; 241; 251; 257; 263; 269; 271; 277; 281; 283; 293; 307;
   311].

(** Integer cube root, one bit at a time from bit [n - 1] down. *)
Fixpoint cube_root (n : nat) (x acc : Z) : Z :=
  match n with
  | O => acc
  | S n' =>
      let c := acc + 2 ^ Z.of_nat n' in
      if c * c * c <=? x then cube_root n' x c else cube_root n' x acc
  end.

(** Round constants: the first 32 bits of the fractional parts of the cube
    roots of the first 64 primes. *)
Definition K : list Z :=
  Eval vm_compute in
    map (fun p => w32 (cube_root 40 (p * 2 ^ 96) 0)) primes.

(** Initial hash value: the first 32 bits of the fractional parts of the
    square roots of the first 8 primes. *)
Definition H0 : list Z :=
  Eval vm_compute in map (fun p => w32 (Z.sqrt (p * 2 ^ 64))) (take 8 primes).

(** Big-endian bytes of a [n]-byte integer. *)
Fixpoint be_bytes (n : nat) (x : Z) : list byte :=
  match n with
  | O => []
  | S n' => byte_of_Z (Z.shiftr x (8 * Z.of_nat n')) :: be_bytes n' x
  end.

Definition be_word (bs : list byte) : Z :=
  fold_left (fun acc b => acc * 256 + byte_val b) bs 0.

(** Message padding: a one bit, zeros, and the bit length on 8 bytes. *)
Definition pad (msg : list byte) : list byte :=
  let len := Z.of_nat (length msg) in
  let zeros := Z.to_nat ((55 - len) mod 64) in
  msg ++ [x80] ++ repeat x00 zeros ++ be_bytes 8 (8 * len).

Fixpoint chunks (fuel : nat) (n : nat) (l : list byte) : list (list byte) :=
  match fuel with
  | O => []
  | S fuel' =>
      match l with
      | [] => []
      | _ => take n l :: chunks fuel' n (drop n l)
      end
  end.

(** The message schedule, latest word first. *)
Fixpoint schedule (n : nat) (rev_w : list Z) : list Z :=
  match n with
  | O => rev_w
  | S n' =>
      let w :=
        add32 (add32 (sigma1 (nth 1 rev_w 0)) (nth 6 rev_w 0))
              (add32 (sigma0 (nth 14 rev_w 0)) (nth 15 rev_w 0)) in
      schedule n' (w :: rev_w)
  end.

Definition round (st : list Z) (kw : Z * Z) : list Z :=
  match st with
  | [a; b; c; d; e; f; g; h] =>
      let t1 :=
        add32 (add32 (add32 h (Sigma1 e)) (add32 (Ch e f g) (fst kw)))
              (snd kw) in
      let t2 := add32 (Sigma0 a) (Maj a b c) in
      [add32 t1 t2; a; b; c; add32 d t1; e; f; g]
  | _ => st
  end.

Definition zip_with_add (xs ys : list Z) : list Z :=
  map (fun p => add32 (fst p) (snd p)) (combine xs ys).

Definition compress (st : list Z) (block : list byte) : list Z :=
  let w16 := map be_word (chunks 16 4 block) in
  let w := rev (schedule 48 (rev w16)) in
  zip_with_add st (fold_left round (combine K w) st).

Definition sha256 (msg : list byte) : list byte :=
  let padded := pad msg in
  let blocks := chunks (length padded) 64 padded in
  flat_map (be_bytes 4) (fold_left compress blocks H0).

(** HMAC (RFC 2104) over SHA-256, block size 64. *)
Definition xor_pad (c : Z) (key : list byte) : list byte :=
  map (fun b => byte_of_Z (Z.lxor (byte_val b) c)) key.

Definition hmac_sha256 (key msg : list byte) : list byte :=
  let key := if (64 <? Z.of_nat (length key)) then sha256 key else key in
  let key := key ++ repeat x00 (64 - length key) in
  sha256 (xor_pad 0x5c key ++ sha256 (xor_pad 0x36 key ++ msg)).

End Sha256.

(** ** Binary floating point: Python floats and REAL columns *)

Module Float.

(** [k >= 0] rounded to [p] significant bits: to nearest, ties to even. *)
Definition round_pos (p k : Z) : Z :=
  let q := Z.log2 k + 1 - p in
  if q <=? 0 then k
  else
    let m := k / 2 ^ q in
    let r := k mod 2 ^ q in
    let h := 2 ^ (q - 1) in
    (if r <? h then m
     else if h <? r then m + 1
     else if Z.even m then m else m + 1) * 2 ^ q.

Definition round_bits (p k : Z) : Z := Z.sgn k * round_pos p (Z.abs k).

(** *** Python floats (binary64)

    A finite double is a whole number of units [2^-1074] with at most 53
    significant bits. *)
Definition double_units (x : Q) : Z := Qfloor (x * inject_Z (2 ^ 1074)).

Definition of_double_units (k : Z) : Q := Qred (k # Z.to_pos (2 ^ 1074)).

(** The double nearest to [x]. *)
Definition to_double (x : Q) : Q :=
  of_double_units (round_bits 53 (double_units x)).

(** [float(n)] for an [int]: the nearest double, as a whole number; [None]
    stands for [OverflowError] (int too large to convert to float). *)
Definition float_of_int (n : Z) : option Z :=
  let f := round_bits 53 n in
  if 2 ^ 1024 <=? Z.abs f then None else Some f.

(** [x - n] for a float [x] and an [int] [n]: [n] is converted to a float
    first, the difference is rounded. *)
Definition float_sub_int (x : Q) (n : Z) : option Q :=
  match float_of_int n with
  | Some f => Some (to_double (x - inject_Z f))
  | None => None
  end.

(** The integers from [float_limit] on are too large for a float. *)
Definition float_limit : Z := 2 ^ 1024 - 2 ^ 970.

(** A reading of the clock: a whole number of units [2^-35] up to [2^53]
    seconds, as every double from [2^17] to [2^53] is. *)
Definition clock (now : Q) : Prop :=
  ∃ j : Z, 0 ≤ j ≤ 2 ^ 88 ∧ (now * inject_Z (2 ^ 35) == inject_Z j)%Q.

(** *** REAL columns (binary32)

    A finite REAL value is a whole number of units [2^-149] with at most 24
    significant bits, of magnitude at most [real_max] units. *)
Definition real_units (x : Q) : Z := Qfloor (x * inject_Z (2 ^ 149)).

Definition real_of_units (k : Z) : Q := Qred (k # Z.to_pos (2 ^ 149)).

Definition real_max : Z := (2 ^ 24 - 1) * 2 ^ 253.

(** The REAL value nearest to [x]: what a REAL column takes for the literal
    [x]. *)
Definition to_real (x : Q) : Q := real_of_units (round_bits 24 (real_units x)).

(** [x] is a value of a REAL column. *)
Definition is_real (x : Q) : Prop :=
  x = real_of_units (real_units x) ∧
  round_bits 24 (real_units x) = real_units x ∧
  Z.abs (real_units x) ≤ real_max.

(** [column + %s] for a REAL column and a float parameter, assigned to a REAL
    column: the engine adds in double precision ([float48pl]) and rounds the
    sum to REAL, in units of [2^-149]. *)
Definition real_sum_units (b e : Q) : Z :=
  round_bits 24 (round_bits 53 (real_units b + real_units e)).

Definition real_sum (b e : Q) : Q := real_of_units (real_sum_units b e).

(** The assignment fails (value out of range: overflow) when the rounded sum
    is beyond the largest REAL value. *)
Definition real_plus (b e : Q) : option Q :=
  if real_max <? Z.abs (real_sum_units b e) then None
  else Some (real_sum b e).

End Float.

(** ** Signature validator *)

Module Auth.

Definition hex_digit (n : Z) : ascii :=
  nth (Z.to_nat n) (list_ascii_of_string "0123456789abcdef") "0"%char.

Definition hexdigest (digest : list byte) : string :=
  string_of_list_ascii
    (flat_map (fun b => [hex_digit (Sha256.byte_val b / 16);
                         hex_digit (Sha256.byte_val b mod 16)]) digest).

Definition encode (s : string) : list byte := list_byte_of_string s.

Definition is_ascii (s : string) : bool :=
  forallb (fun c => (N_of_ascii c <? 128)%N) (list_ascii_of_string s).

Inductive exn : Type := ValueError | TypeError | OverflowError.

(** [hmac.compare_digest(a, b)] on two [str]: a [TypeError] unless both are
    ASCII. *)
Definition compare_digest (a b : string) : exn + bool :=
  if is_ascii a && is_ascii b then inr (String.eqb a b) else inl TypeError.

(** *** Python dictionaries with [str] keys: insertion-ordered, one entry per key *)

Section dict.
Context {V : Type}.

Fixpoint dict_set (k : string) (v : V) (d : list (string * V))
  : list (string * V) :=
  match d with
  | [] => [(k, v)]
  | (k', v') :: rest =>
      if String.eqb k' k then (k', v) :: rest
      else (k', v') :: dict_set k v rest
  end.

(** [dict(pairs)] *)
Definition dict (pairs : list (string * V)) : list (string * V) :=
  fold_left (fun d kv => dict_set (fst kv) (snd kv) d) pairs [].

(** [d.get(k)]; [None] when the key is absent. *)
Fixpoint dict_get (k : string) (d : list (string * V)) : option V :=
  match d with
  | [] => None
  | (k', v') :: rest => if String.eqb k' k then Some v' else dict_get k rest
  end.

(** The dictionary left by [d.pop(k)]. *)
Fixpoint dict_pop (k : string) (d : list (string * V)) : list (string * V) :=
  match d with
  | [] => []
  | (k', v') :: rest =>
      if String.eqb k' k then rest else (k', v') :: dict_pop k rest
  end.
End dict.

(** *** [sorted(data.items())] and the check string *)

Definition str_ltb (a b : string) : bool :=
  match String.compare a b with Lt => true | _ => false end.

(** Tuple order on [(key, value)] items. *)
Definition item_leb (x y : string * string) : bool :=
  str_ltb (fst x) (fst y)
  || (String.eqb (fst x) (fst y) && negb (str_ltb (snd y) (snd x))).

Fixpoint insert_item (x : string * string) (l : list (string * string))
  : list (string * string) :=
  match l with
  | [] => [x]
  | y :: rest => if item_leb x y then x :: y :: rest else y :: insert_item x rest
  end.

Definition sorted (items : list (string * string)) : list (string * string) :=
  fold_right insert_item [] items.

Fixpoint join (sep : string) (parts : list string) : string :=
  match parts with
  | [] => EmptyString
  | [p] => p
  | p :: rest => p +:+ sep +:+ join sep rest
  end.

Definition newline : string := String "010"%char EmptyString.

(** [f"{k}={v}"] *)
Definition key_value (kv : string * string) : string :=
  fst kv +:+ "=" +:+ snd kv.

(** *** JSON values, which are also the values [validate_init_data] returns *)

#[warnings="-register-all"]
Inductive json : Type :=
| JNull
| JBool (b : bool)
| JInt (n : Z)
| JFloat (q : Q)
| JStr (s : string)
| JList (l : list json)
| JDict (d : list (string * json)).

(** The value of [validate_init_data]: what it returns, or the exception that
    leaves it. [None] is [JNull]. *)
Inductive outcome : Type :=
| Return (v : json)
| Raise (e : exn).

(** The freshness window, in seconds. *)
Definition window : Q := 86400.

Section validate_init_data.
(** Library functions and ambient values the validator reads. *)
(** [urllib.parse.parse_qsl(init_data, keep_blank_values=True)]; [None]
    when it raises. *)
Variable parse_qsl : string -> option (list (string * string)).
(** [int(s)]; [None] for [ValueError]. *)
Variable py_int : string -> option Z.
(** [hmac.new(key, msg, hashlib.sha256).digest()] *)
Variable hmac_sha256 : list byte -> list byte -> list byte.
(** [json.loads(s)]; [None] when it raises. *)
Variable json_loads : string -> option json.
(** The module constant [BOT_TOKEN = os.environ.get('BOT_TOKEN')]. *)
Variable BOT_TOKEN : option string.
(** [time.time()], a float. *)
Variable now : Q.

Definition validate_init_data (init_data : string) : outcome :=
  if String.eqb init_data "mock_init_data" then Return (JInt 1)
  else
    match BOT_TOKEN with
    | None => Raise ValueError
    | Some token =>
      if String.eqb token EmptyString then Raise ValueError
      else
        match parse_qsl init_data with
        | None => Return JNull
        | Some pairs =>
          let data := dict pairs in
          match dict_get "auth_date" data with
          | None => Return JNull
          | Some auth_date =>
            match py_int auth_date with
            | None => Raise ValueError
            | Some auth =>
              match Float.float_sub_int now auth with
              | None => Raise OverflowError
              | Some elapsed =>
              if Qle_bool window elapsed then Return JNull
              else
                match dict_get "hash" data with
                | None => Return JNull
                | Some received_hash =>
                  let data := dict_pop "hash" data in
                  let data_check_string :=
                    join newline (map key_value (sorted data)) in
                  let secret_key :=
                    hmac_sha256 (encode "WebAppData") (encode token) in
                  let calculated_hash :=
                    hexdigest
                      (hmac_sha256 secret_key (encode data_check_string)) in
                  match compare_digest received_hash calculated_hash with
                  | inl e => Raise e
                  | inr true =>
                    match dict_get "user" data with
                    | Some user =>
                      match json_loads user with
                      | Some (JDict user_data) =>
                        Return (default JNull (dict_get "id" user_data))
                      | Some _ => Return JNull
                      | None => Return JNull
                      end
                    | None => Return JNull
                    end
                  | inr false => Return JNull
                  end
                end
              end
            end
          end
        end
    end.
End validate_init_data.

(** ** Reference library functions

    Executable stand-ins for the library functions above, used to run the
    validator on concrete payloads. [str] values are their UTF-8 bytes. *)

Module Ref.

Definition chars (s : string) : list ascii := list_ascii_of_string s.
Definition str (cs : list ascii) : string := string_of_list_ascii cs.

(** [s.split(sep)] for a one-character separator. *)
Fixpoint split (sep : ascii) (cs : list ascii) : list (list ascii) :=
  match cs with
  | [] => [[]]
  | c :: rest =>
      if Ascii.eqb c sep then [] :: split sep rest
      else
        match split sep rest with
        | [] => [[c]]
        | first :: others => (c :: first) :: others
        end
  end.

(** [s.split('=', 1)], with the missing value of a bare name made blank. *)
Fixpoint name_value (cs : list ascii) : list ascii * list ascii :=
  match cs with
  | [] => ([], [])
  | c :: rest =>
      if Ascii.eqb c "="%char then ([], rest)
      else let '(n, v) := name_value rest in (c :: n, v)
  end.

Definition hex_value (c : ascii) : option N :=
  let n := N_of_ascii c in
  if ((48 <=? n) && (n <=? 57))%N then Some (n - 48)%N
  else if ((97 <=? n) && (n <=? 102))%N then Some (n - 87)%N
  else if ((65 <=? n) && (n <=? 70))%N then Some (n - 55)%N
  else None.

(** [unquote]: percent escapes become the bytes they denote; an escape that
    is not two hex digits stays as it is. Decoded bytes that are not UTF-8
    are kept, where the library puts U+FFFD. *)
Fixpoint unquote (cs : list ascii) : list ascii :=
  match cs with
  | [] => []
  | c :: rest =>
      if Ascii.eqb c "%"%char then
        match rest with
        | h :: l :: rest' =>
            match hex_value h, hex_value l with
            | Some a, Some b => ascii_of_N (16 * a + b) :: unquote rest'
            | _, _ => c :: unquote rest
            end
        | _ => c :: unquote rest
        end
      else c :: unquote rest
  end.

Definition plus_to_space (cs : list ascii) : list ascii :=
  map (fun c => if Ascii.eqb c "+"%char then " "%char else c) cs.

(** [parse_qsl(qs, keep_blank_values=True)] *)
Definition parse_qsl (qs : string) : option (list (string * string)) :=
  let fields :=
    match chars qs with
    | [] => []
    | cs => split "&"%char cs
    end in
  Some
    (flat_map
       (fun nv =>
          match nv with
          | [] => []
          | _ =>
              let '(n, v) := name_value nv in
              [(str (unquote (plus_to_space n)),
                str (unquote (plus_to_space v)))]
          end) fields).

Definition digit_value (c : ascii) : option Z :=
  let n := N_of_ascii c in
  if ((48 <=? n) && (n <=? 57))%N then Some (Z.of_N n - 48) else None.

Fixpoint digits (acc : Z) (cs : list ascii) : option Z :=
  match cs with
  | [] => Some acc
  | c :: rest =>
      match digit_value c with
      | Some d => digits (10 * acc + d) rest
      | None => None
      end
  end.

(** [int(s)] on a decimal literal with an optional sign. *)
Definition py_int (s : string) : option Z :=
  match chars s with
  | [] => None
  | c :: rest =>
      if Ascii.eqb c "-"%char then
        match rest with [] => None | _ => Z.opp <$> digits 0 rest end
      else if Ascii.eqb c "+"%char then
        match rest with [] => None | _ => digits 0 rest end
      else digits 0 (c :: rest)
  end.

(** [json.loads] on documents made of objects, arrays, integers, strings
    without escapes, [true], [false] and [null]. *)
Definition is_ws (c : ascii) : bool :=
  let n := N_of_ascii c in
  ((n =? 32) || (n =? 9) || (n =? 10) || (n =? 13))%N.

Fixpoint skip_ws (cs : list ascii) : list ascii :=
  match cs with
  | c :: rest => if is_ws c then skip_ws rest else cs
  | [] => []
  end.

Fixpoint string_body (cs : list ascii) : option (list ascii * list ascii) :=
  match cs with
  | [] => None
  | c :: rest =>
      if Ascii.eqb c "034"%char then Some ([], rest)
      else if Ascii.eqb c "\"%char then None
      else
        match string_body rest with
        | Some (body, rest') => Some (c :: body, rest')
        | None => None
        end
  end.

Fixpoint number_body (cs : list ascii) : list ascii * list ascii :=
  match cs with
  | c :: rest =>
      match digit_value c with
      | Some _ => let '(ds, rest') := number_body rest in (c :: ds, rest')
      | None => ([], cs)
      end
  | [] => ([], [])
  end.

Definition starts_with (p : string) (cs : list ascii) : option (list ascii) :=
  let n := String.length p in
  if String.eqb (str (take n cs)) p then Some (drop n cs) else None.

Definition integer (neg : bool) (cs : list ascii) : option (json * list ascii) :=
  match number_body cs with
  | ([], _) => None
  | (ds, rest) =>
      match rest with
      | c :: _ =>
          if Ascii.eqb c "."%char || Ascii.eqb c "e"%char || Ascii.eqb c "E"%char
          then None
          else (fun n => (JInt (if neg then - n else n), rest)) <$> digits 0 ds
      | [] => (fun n => (JInt (if neg then - n else n), rest)) <$> digits 0 ds
      end
  end.

Fixpoint value (fuel : nat) (cs : list ascii) : option (json * list ascii) :=
  match fuel with
  | O => None
  | S fuel' =>
      match skip_ws cs with
      | [] => None
      | c :: rest =>
          if Ascii.eqb c "{"%char then
            match skip_ws rest with
            | c' :: rest' =>
                if Ascii.eqb c' "}"%char then Some (JDict [], rest')
                else (fun r => (JDict (dict (fst r)), snd r))
                       <$> members fuel' (c' :: rest')
            | [] => None
            end
          else if Ascii.eqb c "["%char then
            match skip_ws rest with
            | c' :: rest' =>
                if Ascii.eqb c' "]"%char then Some (JList [], rest')
                else (fun r => (JList (fst r), snd r))
                       <$> elements fuel' (c' :: rest')
            | [] => None
            end
          else if Ascii.eqb c "034"%char then
            (fun r => (JStr (str (fst r)), snd r)) <$> string_body rest
          else if Ascii.eqb c "-"%char then integer true rest
          else
            match starts_with "null" (c :: rest),
                  starts_with "true" (c :: rest),
                  starts_with "false" (c :: rest) with
            | Some r, _, _ => Some (JNull, r)
            | _, Some r, _ => Some (JBool true, r)
            | _, _, Some r => Some (JBool false, r)
            | _, _, _ => integer false (c :: rest)
            end
      end
  end
with elements (fuel : nat) (cs : list ascii) : option (list json * list ascii) :=
  match fuel with
  | O => None
  | S fuel' =>
      match value fuel' cs with
      | Some (v, rest) =>
          match skip_ws rest with
          | c :: rest' =>
              if Ascii.eqb c ","%char then
                (fun r => (v :: fst r, snd r)) <$> elements fuel' rest'
              else if Ascii.eqb c "]"%char then Some ([v], rest')
              else None
          | [] => None
          end
      | None => None
      end
  end
with members (fuel : nat) (cs : list ascii)
  : option (list (string * json) * list ascii) :=
  match fuel with
  | O => None
  | S fuel' =>
      match skip_ws cs with
      | q :: rest =>
          if Ascii.eqb q "034"%char then
            match string_body rest with
            | Some (k, rest1) =>
                match skip_ws rest1 with
                | colon :: rest2 =>
                    if Ascii.eqb colon ":"%char then
                      match value fuel' rest2 with
                      | Some (v, rest3) =>
                          match skip_ws rest3 with
                          | c :: rest4 =>
                              if Ascii.eqb c ","%char then
                                (fun r => ((str k, v) :: fst r, snd r))
                                  <$> members fuel' rest4
                              else if Ascii.eqb c "}"%char then
                                Some ([(str k, v)], rest4)
                              else None
                          | [] => None
                          end
                      | None => None
                      end
                    else None
                | [] => None
                end
            | None => None
            end
          else None
      | [] => None
      end
  end.

Definition json_loads (s : string) : option json :=
  match value (S (String.length s)) (chars s) with
  | Some (v, rest) =>
      match skip_ws rest with
      | [] => Some v
      | _ => None
      end
  | None => None
  end.

End Ref.

(** ** The signature scheme in the words of the specification *)

(** Fields in increasing order of their keys. *)
Definition key_sorted (fields : list (string * string)) : Prop :=
  StronglySorted (fun x y => str_ltb (fst x) (fst y) = true) fields.

(** Hex HMAC-SHA256, keyed by HMAC-SHA256('WebAppData', token), of the
    [key=value] lines of [fields] joined by newlines. *)
Definition signature (hmac_sha256 : list byte -> list byte -> list byte)
  (token : string) (fields : list (string * string)) : string :=
  hexdigest
    (hmac_sha256 (hmac_sha256 (encode "WebAppData") (encode token))
       (encode (join newline (map key_value fields)))).

(** [h] signs [data]: it is the signature of the fields of [data] sorted by
    key. *)
Definition signs (hmac_sha256 : list byte -> list byte -> list byte)
  (token : string) (h : string) (data : list (string * string)) : Prop :=
  ∃ fields, fields ≡ₚ data ∧ key_sorted fields ∧
            h = signature hmac_sha256 token fields.

(** ** [require_auth] *)

(** Python truth value of a JSON value. *)
Definition truthy (v : json) : bool :=
  match v with
  | JNull => false
  | JBool b => b
  | JInt n => negb (n =? 0)
  | JFloat q => negb (Qeq_bool q 0)
  | JStr s => negb (String.eqb s EmptyString)
  | JList l => match l with [] => false | _ => true end
  | JDict d => match d with [] => false | _ => true end
  end.

(** [a or b] on two optional strings. *)
Definition str_or (a b : option string) : option string :=
  match a with
  | Some s => if String.eqb s EmptyString then b else a
  | None => b
  end.

(** What [require_auth] reads of the request: the [X-Init-Data] header,
    [request.is_json], and [request.json.get('initData')] for a body that is
    a JSON object whose [initData], when present, is a string. *)
Record auth_request : Type := {
  x_init_data : option string;
  is_json : bool;
  body_init_data : option string
}.

Section require_auth.
Variable parse_qsl : string -> option (list (string * string)).
Variable py_int : string -> option Z.
Variable hmac_sha256 : list byte -> list byte -> list byte.
Variable json_loads : string -> option json.
Variable BOT_TOKEN : option string.
Variable now : Q.

(** [init_data = header or body if request.is_json else None]: the
    conditional binds weaker than [or]. *)
Definition init_data_of (rq : auth_request) : option string :=
  if is_json rq then str_or (x_init_data rq) (body_init_data rq) else None.

Definition require_auth (rq : auth_request) : outcome :=
  match init_data_of rq with
  | None => Return JNull
  | Some init_data =>
      if String.eqb init_data EmptyString then Return JNull
      else
        match validate_init_data parse_qsl py_int hmac_sha256 json_loads
                BOT_TOKEN now init_data with
        | Raise e => Raise e
        | Return user_id =>
            if truthy user_id then Return user_id else Return JNull
        end
  end.
End require_auth.

End Auth.

(** ** Persistence model *)

Module Raid.

(** A JSON-encoded TEXT column. *)
Inductive stored (A : Type) : Type :=
| Parsed (a : A)
| Corrupt.
Arguments Parsed {A} a.
Arguments Corrupt {A}.

(** [safe_json_loads(data, default)]: the parsed value, or [default] when
    [json.loads] raises. *)
Definition safe_json_loads {A : Type} (data : stored A) (default : A) : A :=
  match data with
  | Parsed a => a
  | Corrupt => default
  end.

(** [json.loads(data)]: [None] stands for the exception it raises. *)
Definition json_loads {A : Type} (data : stored A) : option A :=
  match data with
  | Parsed a => Some a
  | Corrupt => None
  end.

(** [json.dumps(value)]. *)
Definition json_dumps {A : Type} (value : A) : stored A := Parsed value.

Inductive session_status : Type :=
| active_status | dead | hurt | timeout | completed.

Inductive transaction_type : Type :=
| raid_entry | raid_win | claim.

Record user_row : Type := {
  username : string;
  balance : Q;
  builder_credits : Z
}.

Record map_row : Type := {
  creator_id : Z;
  grid_json : stored (list Z);
  dug_json : stored (list Z);
  difficulty : Q;
  active : bool;
  is_archived : bool
}.

Record raid_session : Type := {
  player_id : Z;
  map_id : Z;
  current_stage : Z;
  status : session_status;
  earnings_buffer : Q;
  dug_history : stored (list Z);
  created_at : Z;
  expires_at : Z
}.

Record transaction : Type := {
  user_id : Z;
  amount : Q;
  type : transaction_type;
  booked_at : Z
}.

(** The tables. [maps_seq] and [raid_sessions_seq] are the SERIAL sequences
    behind the [id] columns of [maps] and [raid_sessions]. The [id] column
    of [transactions] is left out with its sequence: no handler reads it,
    and the ledger is the list of its rows in the order of their ids. *)
Record db : Type := {
  users : gmap Z user_row;
  maps : gmap Z map_row;
  maps_seq : Z;
  raid_sessions : gmap Z raid_session;
  raid_sessions_seq : Z;
  transactions : list transaction
}.

(** *** Row and table updates (the SET clauses of the UPDATE statements) *)

Definition set_balance (f : Q -> Q) (u : user_row) : user_row :=
  {| username := username u; balance := f (balance u);
     builder_credits := builder_credits u |}.

Definition set_builder_credits (f : Z -> Z) (u : user_row) : user_row :=
  {| username := username u; balance := balance u;
     builder_credits := f (builder_credits u) |}.

Definition set_dug_json (d : stored (list Z)) (m : map_row) : map_row :=
  {| creator_id := creator_id m; grid_json := grid_json m; dug_json := d;
     difficulty := difficulty m; active := active m;
     is_archived := is_archived m |}.

Definition set_active (b : bool) (m : map_row) : map_row :=
  {| creator_id := creator_id m; grid_json := grid_json m;
     dug_json := dug_json m; difficulty := difficulty m; active := b;
     is_archived := is_archived m |}.

Definition set_status (st : session_status) (r : raid_session) : raid_session :=
  {| player_id := player_id r; map_id := map_id r;
     current_stage := current_stage r; status := st;
     earnings_buffer := earnings_buffer r; dug_history := dug_history r;
     created_at := created_at r; expires_at := expires_at r |}.

Definition set_earnings_history (e : Q) (h : stored (list Z)) (r : raid_session)
  : raid_session :=
  {| player_id := player_id r; map_id := map_id r;
     current_stage := current_stage r; status := status r;
     earnings_buffer := e; dug_history := h;
     created_at := created_at r; expires_at := expires_at r |}.

Definition update_users (f : gmap Z user_row -> gmap Z user_row) (s : db) : db :=
  {| users := f (users s); maps := maps s; maps_seq := maps_seq s;
     raid_sessions := raid_sessions s;
     raid_sessions_seq := raid_sessions_seq s;
     transactions := transactions s |}.

Definition update_maps (f : gmap Z map_row -> gmap Z map_row) (s : db) : db :=
  {| users := users s; maps := f (maps s); maps_seq := maps_seq s;
     raid_sessions := raid_sessions s;
     raid_sessions_seq := raid_sessions_seq s;
     transactions := transactions s |}.

Definition update_raid_sessions
  (f : gmap Z raid_session -> gmap Z raid_session) (s : db) : db :=
  {| users := users s; maps := maps s; maps_seq := maps_seq s;
     raid_sessions := f (raid_sessions s);
     raid_sessions_seq := raid_sessions_seq s;
     transactions := transactions s |}.

(** The store a transaction leaves when it is abandoned without
    [conn.commit()]: the tables of [before]; the sequences keep what they
    handed out in the transaction ([nextval] is not rolled back). *)
Definition rollback (before after : db) : db :=
  {| users := users before; maps := maps before; maps_seq := maps_seq after;
     raid_sessions := raid_sessions before;
     raid_sessions_seq := raid_sessions_seq after;
     transactions := transactions before |}.

(** A ledger row; [created_at] defaults to the time of the insert. *)
Definition entry (now uid : Z) (a : Q) (t : transaction_type) : transaction :=
  {| user_id := uid; amount := a; type := t; booked_at := now |}.

(** [INSERT INTO transactions (user_id, amount, type)]: the ledger only grows,
    at its end. *)
Definition insert_transaction (now uid : Z) (a : Q) (t : transaction_type)
  (s : db) : db :=
  {| users := users s; maps := maps s; maps_seq := maps_seq s;
     raid_sessions := raid_sessions s;
     raid_sessions_seq := raid_sessions_seq s;
     transactions := transactions s ++ [entry now uid a t] |}.

(** [INSERT INTO maps (creator_id, grid_json)]: the other columns take their
    defaults ([dug_json '[]'], [difficulty 1.0], [active TRUE],
    [is_archived FALSE]). *)
Definition insert_map (creator : Z) (grid : stored (list Z)) (s : db) : db :=
  {| users := users s;
     maps := <[maps_seq s :=
                {| creator_id := creator; grid_json := grid;
                   dug_json := Parsed []; difficulty := 1%Q; active := true;
                   is_archived := false |}]> (maps s);
     maps_seq := maps_seq s + 1;
     raid_sessions := raid_sessions s;
     raid_sessions_seq := raid_sessions_seq s;
     transactions := transactions s |}.

(** [INSERT INTO raid_sessions (player_id, map_id, expires_at) RETURNING id]:
    defaults [current_stage 1], [status 'active'], [earnings_buffer 0.0],
    [dug_history '[]']. *)
Definition insert_raid_session (now player mid expires : Z) (s : db) : Z * db :=
  (raid_sessions_seq s,
   {| users := users s; maps := maps s; maps_seq := maps_seq s;
      raid_sessions :=
        <[raid_sessions_seq s :=
           {| player_id := player; map_id := mid; current_stage := 1;
              status := active_status; earnings_buffer := 0%Q;
              dug_history := Parsed []; created_at := now;
              expires_at := expires |}]> (raid_sessions s);
      raid_sessions_seq := raid_sessions_seq s + 1;
      transactions := transactions s |}).

(** [SELECT ... FROM raid_sessions WHERE id = %s AND player_id = %s]. *)
Definition select_session (session_id uid : Z) (s : db) : option raid_session :=
  match raid_sessions s !! session_id with
  | Some r => if player_id r =? uid then Some r else None
  | None => None
  end.

(** [SELECT ... FROM maps WHERE id = %s AND creator_id = %s]. *)
Definition select_own_map (mid uid : Z) (s : db) : option map_row :=
  match maps s !! mid with
  | Some m => if creator_id m =? uid then Some m else None
  | None => None
  end.

(** [SELECT id, creator_id FROM maps WHERE active = TRUE AND creator_id != %s]:
    the rows [raid_scout] draws one from at random. *)
Definition scout_candidates (uid : Z) (s : db) : gmap Z map_row :=
  filter (fun kv => active kv.2 = true ∧ creator_id kv.2 ≠ uid) (maps s).

(** *** Rows as the driver hands them over *)

(** A row of a [RealDictCursor] is a dict keyed by the column names:
    [row['name']] reads the column, [row[0]] finds no such key and raises
    [KeyError], for which [None] stands. *)
Inductive key : Type :=
| column (name : string)
| position (i : Z).

Definition getitem {A : Type} (row : list (string * A)) (k : key) : option A :=
  match k with
  | column name => Auth.dict_get name row
  | position _ => None
  end.

(** [datetime.fromisoformat(x)] for the [datetime] object [x] that the driver
    returns for a TIMESTAMP column: the function takes a [str] and raises
    [TypeError], for which [None] stands. *)
Definition fromisoformat (x : Z) : option Z := None.

(** ** Responses *)

Inductive body : Type :=
| error (msg : string)
| success
| started (session_id : Z) (walls dug : list Z)
| dig_timeout
| dig_dead (reward : Q)
| dig_hurt
| dig_safe (reward : Q) (stage_complete : bool)
| left_raid (earnings : Q)
| claimed (reward : Q).

(** [jsonify(body), code]. *)
Definition response : Type := body * Z.

Definition ok (b : body) : response := (b, 200).
Definition unauthorized : response := (error "Unauthorized", 401).
(** An uncaught exception: the [errorhandler(500)] answer. *)
Definition internal_error : response := (error "Internal server error", 500).

(** [if not user_id]: the identity [require_auth()] returned is missing or
    falsy. *)
Definition authenticated (auth : option Z) : option Z :=
  match auth with
  | Some uid => if uid =? 0 then None else Some uid
  | None => None
  end.

(** ** Grid computations *)

(** [sum(1 for x in grid if x == code)]. *)
Fixpoint count_code (code : Z) (grid : list Z) : Z :=
  match grid with
  | [] => 0
  | x :: rest => (if x =? code then 1 else 0) + count_code code rest
  end.

(** [[i for i, x in enumerate(grid) if x == code]], counting from [i]. *)
Fixpoint positions_from (i : Z) (code : Z) (grid : list Z) : list Z :=
  match grid with
  | [] => []
  | x :: rest =>
      if x =? code then i :: positions_from (i + 1) code rest
      else positions_from (i + 1) code rest
  end.

Definition positions (code : Z) (grid : list Z) : list Z :=
  positions_from 0 code grid.

(** [x in l] on a list of integers. *)
Definition py_in (x : Z) (l : list Z) : bool := existsb (Z.eqb x) l.

(** [sum(1 for i, x in enumerate(grid) if x in [0, 4] and i not in dug)]. *)
Fixpoint safe_cells_from (i : Z) (grid dug : list Z) : Z :=
  match grid with
  | [] => 0
  | x :: rest =>
      (if py_in x [0; 4] && negb (py_in i dug) then 1 else 0)
      + safe_cells_from (i + 1) rest dug
  end.

Definition safe_cells (grid dug : list Z) : Z := safe_cells_from 0 grid dug.

(** [grid[cell_index]] for an index already known to be non-negative. *)
Definition grid_at (grid : list Z) (cell_index : Z) : option Z :=
  grid !! Z.to_nat cell_index.

Definition Qltb (x y : Q) : bool := negb (Qle_bool y x).

(** ** Constants of the handlers *)

Definition fee : Q := 0.1%Q.
Definition session_seconds : Z := 120.
Definition microsecond : Z := 1000000.
Definition chest_reward : Q := 0.05%Q.
Definition empty_reward : Q := 0.01%Q.
Definition claim_reward : Q := 1%Q.

(** ** Route handlers

    Every handler takes [auth], the value of [require_auth()], the fields of
    the JSON request body, and the committed store. *)

(** [POST /api/maps/create] *)
Definition maps_create (auth : option Z) (grid : option (list Z)) (s : db)
  : response * db :=
  match authenticated auth with
  | None => (unauthorized, s)
  | Some uid =>
    match grid with
    | None => ((error "Invalid grid", 400), s)
    | Some grid =>
      if negb (Z.of_nat (length grid) =? 48) then
        ((error "Invalid grid", 400), s)
      else
        let snakes := count_code 2 grid in
        let holes := count_code 3 grid in
        let chests := count_code 4 grid in
        let walls := count_code 1 grid in
        if negb (snakes =? 4) || negb (holes =? 2) || negb (chests =? 2) then
          ((error "Invalid placement", 400), s)
        else
          let chest_positions := positions 4 grid in
          match chest_positions with
          | [p0; p1] =>
            if negb (Z.abs (p0 - p1) =? 1) then
              ((error "Chest must be adjacent", 400), s)
            else
              match users s !! uid with
              | None => ((error "No credits", 400), s)
              | Some credits_row =>
                if builder_credits credits_row <=? 0 then
                  ((error "No credits", 400), s)
                else
                  let s1 :=
                    update_users
                      (alter (set_builder_credits (fun c => c - 1)) uid) s in
                  let s2 := insert_map uid (json_dumps grid) s1 in
                  (ok success, s2)
              end
          | _ => ((error "Chest must be adjacent", 400), s)
          end
    end
  end.

(** [POST /api/raid/start]. [map_id] is the request field; [if not map_id]
    refuses a missing id and the id 0. For a REAL balance the test
    [balance < fee] on doubles agrees with the test on the exact values: no
    REAL value lies between one tenth and the double nearest to it. The
    handler reads the selected row by position, [map_data[0]], which raises
    [KeyError] before [conn.commit()]. *)
Definition raid_start (now : Z) (auth : option Z) (map_id : option Z) (s : db)
  : response * db :=
  match authenticated auth with
  | None => (unauthorized, s)
  | Some uid =>
    match map_id with
    | None => ((error "Missing map_id", 400), s)
    | Some mid =>
      if mid =? 0 then ((error "Missing map_id", 400), s)
      else
        let balance :=
          match users s !! uid with
          | Some balance_row => balance balance_row
          | None => 0%Q
          end in
        if Qltb balance fee then ((error "Insufficient balance", 400), s)
        else
          match maps s !! mid with
          | None => ((error "Map not found", 404), s)
          | Some _ =>
            let s1 :=
              update_users
                (alter (set_balance
                          (fun b => Float.real_sum b (- Float.to_double fee)%Q))
                   uid) s in
            let s2 :=
              insert_transaction now uid (Float.to_real (- fee)%Q) raid_entry
                s1 in
            let expires := now + session_seconds * microsecond in
            let '(session_id, s3) := insert_raid_session now uid mid expires s2 in
            match maps s3 !! mid with
            | None => ((error "Map not found", 404), rollback s s3)
            | Some m =>
              let map_data :=
                [("grid_json", grid_json m); ("dug_json", dug_json m)] in
              match getitem map_data (position 0),
                    getitem map_data (position 1) with
              | Some grid_text, Some dug_text =>
                match json_loads grid_text, json_loads dug_text with
                | Some grid, Some dug =>
                  let walls := positions 1 grid in
                  (ok (started session_id walls dug), s3)
                | _, _ => (internal_error, rollback s s3)
                end
              | _, _ => (internal_error, rollback s s3)
              end
            end
          end
    end
  end.

(** [POST /api/raid/dig]. A session that is found is read with
    [datetime.fromisoformat(session['expires_at'])], which raises. *)
Definition raid_dig (now : Z) (auth : option Z) (session_id cell_index : option Z)
  (s : db) : response * db :=
  match authenticated auth with
  | None => (unauthorized, s)
  | Some uid =>
    match session_id, cell_index with
    | Some sid, Some cell =>
      if (cell <? 0) || (cell >=? 48) then
        ((error "Missing or invalid data", 400), s)
      else
        match select_session sid uid s with
        | None => ((error "Session not found", 404), s)
        | Some session =>
          match fromisoformat (expires_at session) with
          | None => (internal_error, s)
          | Some expires =>
          if now >? expires then
            (ok dig_timeout,
             update_raid_sessions (alter (set_status timeout) sid) s)
          else
            let mid := map_id session in
            let history := safe_json_loads (dug_history session) [] in
            if py_in cell history then ((error "Cell already dug", 400), s)
            else
              match maps s !! mid with
              | None => (internal_error, s)
              | Some map_data =>
                match grid_json map_data with
                | Corrupt => ((error "Map data corrupted", 500), s)
                | Parsed grid =>
                  match dug_json map_data with
                  | Corrupt => ((error "Map data corrupted", 500), s)
                  | Parsed dug =>
                    match grid_at grid cell with
                    | None => (internal_error, s)
                    | Some cell_type =>
                      if cell_type =? 2 then
                        let s1 :=
                          update_raid_sessions (alter (set_status dead) sid) s in
                        let dug := dug ++ [cell] in
                        let s2 :=
                          update_maps
                            (alter (set_dug_json (json_dumps dug)) mid) s1 in
                        (ok (dig_dead 0), s2)
                      else if cell_type =? 3 then
                        let s1 :=
                          update_raid_sessions (alter (set_status hurt) sid) s in
                        (ok dig_hurt, s1)
                      else
                        let reward :=
                          if cell_type =? 4 then chest_reward
                          else empty_reward in
                        let earnings :=
                          Float.to_real
                            (Float.to_double
                               (earnings_buffer session
                                + Float.to_double reward)%Q) in
                        let s1 :=
                          update_raid_sessions
                            (alter
                               (set_earnings_history earnings
                                  (json_dumps (history ++ [cell]))) sid) s in
                        let dug := dug ++ [cell] in
                        let s2 :=
                          update_maps
                            (alter (set_dug_json (json_dumps dug)) mid) s1 in
                        let opened := Z.of_nat (length dug) in
                        let stage_complete := opened >=? 12 in
                        (ok (dig_safe reward stage_complete), s2)
                    end
                  end
                end
              end
          end
        end
    | _, _ => ((error "Missing or invalid data", 400), s)
    end
  end.

(** [UPDATE users SET balance = balance + %s WHERE id = %s]: [None] when the
    sum is out of the range of REAL, which the engine refuses. *)
Definition add_to_balance (uid : Z) (a : Q) (s : db) : option db :=
  match users s !! uid with
  | None => Some s
  | Some u =>
      match Float.real_plus (balance u) a with
      | Some b => Some (update_users (alter (set_balance (fun _ => b)) uid) s)
      | None => None
      end
  end.

(** [POST /api/raid/leave] *)
Definition raid_leave (now : Z) (auth : option Z) (session_id : option Z)
  (s : db) : response * db :=
  match authenticated auth with
  | None => (unauthorized, s)
  | Some uid =>
    match session_id with
    | None => ((error "Session not found", 404), s)
    | Some sid =>
      match select_session sid uid s with
      | None => ((error "Session not found", 404), s)
      | Some session =>
        let earnings := earnings_buffer session in
        match add_to_balance uid earnings s with
        | None => (internal_error, s)
        | Some s1 =>
          let s2 := insert_transaction now uid earnings raid_win s1 in
          let s3 :=
            update_raid_sessions (alter (set_status completed) sid) s2 in
          (ok (left_raid earnings), s3)
        end
      end
    end
  end.

(** [POST /api/my_tombs/claim]. The reward of 1.0 added to a REAL balance
    stays in the range of REAL: the largest value absorbs it. *)
Definition my_tombs_claim (now : Z) (auth : option Z) (map_id : option Z)
  (s : db) : response * db :=
  match authenticated auth with
  | None => (unauthorized, s)
  | Some uid =>
    match map_id with
    | None => ((error "Map not found", 404), s)
    | Some mid =>
      match select_own_map mid uid s with
      | None => ((error "Map not found", 404), s)
      | Some map_data =>
        match json_loads (grid_json map_data),
              json_loads (dug_json map_data) with
        | Some grid, Some dug =>
          if safe_cells grid dug >=? 12 then
            ((error "Not ready to claim", 400), s)
          else
            let s1 := update_maps (alter (set_active false) mid) s in
            let reward := claim_reward in
            let s2 :=
              update_users
                (alter (set_balance (fun b => Float.real_sum b reward)) uid)
                s1 in
            let s3 := insert_transaction now uid reward claim s2 in
            (ok (claimed reward), s3)
        | _, _ => (internal_error, s)
        end
      end
    end
  end.

(** The store [maps_create] commits for an accepted grid. *)
Definition published (uid : Z) (grid : list Z) (s : db) : db :=
  insert_map uid (json_dumps grid)
    (update_users (alter (set_builder_credits (fun c => c - 1)) uid) s).

(** ** Requests and runs *)

Inductive request : Type :=
| POST_maps_create (auth : option Z) (grid : option (list Z))
| POST_raid_start (now : Z) (auth : option Z) (map_id : option Z)
| POST_raid_dig (now : Z) (auth : option Z) (session_id cell_index : option Z)
| POST_raid_leave (now : Z) (auth : option Z) (session_id : option Z)
| POST_my_tombs_claim (now : Z) (auth : option Z) (map_id : option Z).

Definition handle (rq : request) (s : db) : response * db :=
  match rq with
  | POST_maps_create auth grid => maps_create auth grid s
  | POST_raid_start now auth mid => raid_start now auth mid s
  | POST_raid_dig now auth sid cell => raid_dig now auth sid cell s
  | POST_raid_leave now auth sid => raid_leave now auth sid s
  | POST_my_tombs_claim now auth mid => my_tombs_claim now auth mid s
  end.

(** The requests served one after the other: the responses, and the store
    left by the last one. *)
Fixpoint serve (rqs : list request) (s : db) : list response * db :=
  match rqs with
  | [] => ([], s)
  | rq :: rest =>
      let '(r, s1) := handle rq s in
      let '(rs, s2) := serve rest s1 in
      (r :: rs, s2)
  end.

(** The SERIAL sequences are ahead of every id in use. *)
Definition sequences_ahead (s : db) : Prop :=
  (∀ k m, maps s !! k = Some m → k < maps_seq s) ∧
  (∀ k r, raid_sessions s !! k = Some r → k < raid_sessions_seq s).

(** ** The grid rules and the safe-cell count in the words of the
    specification *)

(** 48 cells, exactly 4 traps, 2 pits, 2 chest halves, the chest halves at
    indices that differ by one. *)
Definition valid_grid (grid : list Z) : Prop :=
  length grid = 48%nat ∧
  count_occ Z.eq_dec grid 2 = 4%nat ∧
  count_occ Z.eq_dec grid 3 = 2%nat ∧
  count_occ Z.eq_dec grid 4 = 2%nat ∧
  ∃ i : nat, grid !! i = Some 4 ∧ grid !! S i = Some 4.

(** Cell [i] is of type 0 or 4 and is not in the dug list. *)
Definition remaining_safe (grid dug : list Z) (i : nat) : Prop :=
  (grid !! i = Some 0 ∨ grid !! i = Some 4) ∧ Z.of_nat i ∉ dug.

(** [cells] lists the remaining safe cells, each once. *)
Definition remaining_safe_cells (grid dug : list Z) (cells : list nat) : Prop :=
  NoDup cells ∧ ∀ i, i ∈ cells ↔ remaining_safe grid dug i.

(** The dug history a session is read with. *)
Definition history (r : raid_session) : list Z :=
  safe_json_loads (dug_history r) [].

(** What may change in a map row once it is created: the map may be
    deactivated, and is never activated again. *)
Definition map_evolves (m m' : map_row) : Prop :=
  creator_id m' = creator_id m ∧
  grid_json m' = grid_json m ∧
  dug_json m' = dug_json m ∧
  (active m = false → active m' = false).

(** ** The other routes *)

(** The identity a handler works with when [require_auth()] returned an
    integer. *)
Definition identity (o : Auth.outcome) : option Z :=
  match o with
  | Auth.Return (Auth.JInt uid) => Some uid
  | _ => None
  end.

Record tomb : Type := {
  tomb_id : Z;
  deaths : Z;
  tomb_earnings : Q;
  can_claim : bool
}.

(** Bodies of [login], [editor_template], [raid_scout] and [my_tombs]. *)
Inductive reply : Type :=
| refused (msg : string)
| logged_in (uid : Z) (user : user_row)
    (active_session : option (Z * raid_session))
| template (grid : list Z)
| scouted (mid : Z) (quoted_fee : Q)
| tombs (l : list tomb).

(** [f'user_{user_id}'] *)
Definition default_username (uid : Z) : string :=
  "user_" +:+ NilZero.string_of_int (Z.to_int uid).

(** The row [login] inserts for a first visit. *)
Definition new_user (uid : Z) : user_row :=
  {| username := default_username uid; balance := 1%Q; builder_credits := 5 |}.

Definition is_active (st : session_status) : bool :=
  match st with
  | active_status => true
  | _ => false
  end.

(** [SELECT * FROM raid_sessions WHERE player_id = %s AND status = 'active'] *)
Definition active_sessions (uid : Z) (s : db) : gmap Z raid_session :=
  filter (fun kr => player_id kr.2 = uid ∧ is_active (status kr.2) = true)
    (raid_sessions s).

(** [POST /api/login]. [fetchone] is the row the database hands out of the
    rows a query selects. *)
Definition login (fetchone : gmap Z raid_session -> option (Z * raid_session))
  (auth : option Z) (s : db) : (reply * Z) * db :=
  match authenticated auth with
  | None => ((refused "Unauthorized", 401), s)
  | Some uid =>
      let '(user, s1) :=
        match users s !! uid with
        | Some user => (user, s)
        | None => (new_user uid, update_users (insert uid (new_user uid)) s)
        end in
      let session := fetchone (active_sessions uid s1) in
      ((logged_in uid user session, 200), s1)
  end.

(** The grid of [editor_template] for the sample [walls] drawn by
    [random.sample(range(48), 16)]. *)
Definition template_grid (walls : list Z) : list Z :=
  fold_left (fun grid w => <[Z.to_nat w := 1]> grid) walls (repeat 0 48%nat).

(** [POST /api/editor/template]. [body_init_data] is
    [request.json.get('initData')]. *)
Definition editor_template (auth : option Z) (body_init_data : option string)
  (walls : list Z) : reply * Z :=
  match authenticated auth with
  | Some _ => (template (template_grid walls), 200)
  | None =>
      match body_init_data with
      | Some d =>
          if String.eqb d "mock_init_data" then
            (template (template_grid walls), 200)
          else (refused "Unauthorized", 401)
      | None => (refused "Unauthorized", 401)
      end
  end.

(** The fee [raid_scout] quotes. *)
Definition scout_fee : Q := 0.1%Q.

(** [POST /api/raid/scout]. [fetchone] hands out the row that
    [ORDER BY RANDOM() LIMIT 1] leaves. *)
Definition raid_scout (fetchone : gmap Z map_row -> option (Z * map_row))
  (auth : option Z) (s : db) : (reply * Z) * db :=
  match authenticated auth with
  | None => ((refused "Unauthorized", 401), s)
  | Some uid =>
      match fetchone (scout_candidates uid s) with
      | None => ((refused "No maps available", 404), s)
      | Some (mid, _) => ((scouted mid scout_fee, 200), s)
      end
  end.

(** [l[i]] for a Python list; [None] stands for [IndexError]. *)
Definition py_index (l : list Z) (i : Z) : option Z :=
  let n := Z.of_nat (length l) in
  if (0 <=? i) && (i <? n) then l !! Z.to_nat i
  else if (- n <=? i) && (i <? 0) then l !! Z.to_nat (n + i)
  else None.

(** [len([x for x in dug if grid[x] == 2])] *)
Fixpoint count_deaths (grid dug : list Z) : option Z :=
  match dug with
  | [] => Some 0
  | x :: rest =>
      match py_index grid x with
      | None => None
      | Some t =>
          (fun n => (if t =? 2 then 1 else 0) + n) <$> count_deaths grid rest
      end
  end.

(** [SELECT id, dug_json, grid_json FROM maps WHERE creator_id = %s] *)
Definition own_maps (uid : Z) (s : db) : gmap Z map_row :=
  filter (fun km => creator_id km.2 = uid) (maps s).

(** One entry of [my_tombs]; [None] when reading the row raises. *)
Definition tomb_of (id : Z) (m : map_row) : option tomb :=
  match json_loads (dug_json m), json_loads (grid_json m) with
  | Some dug, Some grid =>
      let safe := safe_cells grid dug in
      match count_deaths grid dug with
      | Some d =>
          Some {| tomb_id := id; deaths := d; tomb_earnings := 0%Q;
                  can_claim := safe <? 12 |}
      | None => None
      end
  | _, _ => None
  end.

(** [POST /api/my_tombs]. The rows come in the order of [map_to_list]; the
    database fixes none. *)
Definition my_tombs (auth : option Z) (s : db) : (reply * Z) * db :=
  match authenticated auth with
  | None => ((refused "Unauthorized", 401), s)
  | Some uid =>
      match mapM (fun km => tomb_of km.1 km.2) (map_to_list (own_maps uid s)) with
      | Some result => ((tombs result, 200), s)
      | None => ((refused "Internal server error", 500), s)
      end
  end.

(** ** Notions for the properties of runs *)

(** A database hands out one of the selected rows, and none only when
    there is none. *)
Definition hands_out {A : Type} (fetchone : gmap Z A -> option (Z * A))
  : Prop :=
  ∀ rows, match fetchone rows with
          | Some (k, a) => rows !! k = Some a
          | None => rows = ∅
          end.

(** The balance [b] with the amounts booked for [uid] in a stretch of the
    ledger added one after the other, each sum rounded to REAL. *)
Definition replay (uid : Z) (b : Q) (rows : list transaction) : Q :=
  fold_left
    (fun b t => if user_id t =? uid then Float.real_sum b (amount t) else b)
    rows b.

(** The tables of two stores are the same. *)
Definition same_tables (s s' : db) : Prop :=
  users s' = users s ∧ maps s' = maps s ∧
  raid_sessions s' = raid_sessions s ∧ transactions s' = transactions s.


(** Every session is of a map that exists (the foreign key of [map_id]) and
    that another user created. *)
Definition raiders_are_strangers (s : db) : Prop :=
  ∀ sid r, raid_sessions s !! sid = Some r →
           ∃ m, maps s !! map_id r = Some m ∧ player_id r ≠ creator_id m.



(** No balance, credit count or earnings buffer is negative. *)
Definition solvent (s : db) : Prop :=
  (∀ uid u, users s !! uid = Some u →
            (0 <= balance u)%Q ∧ 0 ≤ builder_credits u) ∧
  (∀ sid r, raid_sessions s !! sid = Some r → (0 <= earnings_buffer r)%Q).

(** What may change in a session once it is created: its status, and its
    earnings and dug history, which only grow. *)
Definition session_evolves (r r' : raid_session) : Prop :=
  player_id r' = player_id r ∧ map_id r' = map_id r ∧
  created_at r' = created_at r ∧ expires_at r' = expires_at r ∧
  (earnings_buffer r <= earnings_buffer r')%Q ∧
  ∃ opened, history r' = history r ++ opened.

(** The entries of a dug list that sit on traps. *)
Definition trap_hits (grid dug : list Z) : Z :=
  Z.of_nat (length (filter (fun x => grid !! Z.to_nat x = Some 2) dug)).

(** A database that hands out the first row it holds. *)
Definition first_row {A : Type} (rows : gmap Z A) : option (Z * A) :=
  head (map_to_list rows).

End Raid.

(** ** Scenarios *)

Module Scenario.
Import Auth Raid.

Definition dq : string := String "034"%char EmptyString.

(** [{"id":123,"username":"test"}] *)
Definition user_json : string :=
  "{" +:+ dq +:+ "id" +:+ dq +:+ ":123," +:+ dq +:+ "username" +:+ dq +:+ ":"
  +:+ dq +:+ "test" +:+ dq +:+ "}".

Definition bot_token : string := "test_bot_token".

Definition launch_fields : list (string * string) :=
  [("auth_date", "123456"); ("user", user_json)].

Definition launch_hash : string :=
  signature Sha256.hmac_sha256 bot_token launch_fields.

(** A launch payload signed with [bot_token]. *)
Definition signed_payload : string :=
  "user=" +:+ user_json +:+ "&auth_date=123456&hash=" +:+ launch_hash.

(** One hour after the launch. *)
Definition an_hour_later : Q := inject_Z (123456 + 3600).

Definition validate : string -> outcome :=
  validate_init_data Ref.parse_qsl Ref.py_int Sha256.hmac_sha256
    Ref.json_loads (Some bot_token) an_hour_later.

(** The signed launch payload with its fields in another order. *)
Definition reordered_payload : string :=
  "hash=" +:+ launch_hash +:+ "&auth_date=123456&user=" +:+ user_json.

(** A payload signed with [bot_token] that carries no [user] field. *)
Definition anonymous_hash : string :=
  signature Sha256.hmac_sha256 bot_token [("auth_date", "123456")].

Definition anonymous_payload : string :=
  "auth_date=123456&hash=" +:+ anonymous_hash.

(** An [auth_date] of 401 digits, beyond the range of a float. *)
Definition huge_auth_date : string :=
  "1" +:+ string_of_list_ascii (repeat "0"%char 400).

Definition authenticate : auth_request -> outcome :=
  require_auth Ref.parse_qsl Ref.py_int Sha256.hmac_sha256 Ref.json_loads
    (Some bot_token) an_hour_later.

(** A layout without walls: traps at 0-3, pits at 4-5, the chest at 6-7. *)
Definition no_walls_grid : list Z :=
  [2; 2; 2; 2; 3; 3; 4; 4] ++ repeat 0 40.

(** The layout of the example scenario: 16 walls, then traps, pits, the
    chest, and 24 empty cells. *)
Definition walled_grid : list Z :=
  repeat 1 16%nat ++ [2; 2; 2; 2; 3; 3; 4; 4] ++ repeat 0 24.

(** A layout of 40 walls around the traps, the pits and the chest. *)
Definition fortress_grid : list Z :=
  [2; 2; 2; 2; 3; 3; 4; 4] ++ repeat 1 40.

(** The first 16 cells as the sample of the template. *)
Definition sample_walls : list Z := map Z.of_nat (seq 0 16).

Definition player (name : string) (b : Q) (credits : Z) : user_row :=
  {| username := name; balance := b; builder_credits := credits |}.

(** Three users after their first login, no maps, no sessions. *)
Definition fresh_db : db :=
  {| users :=
       <[5 := player "user_5" 1 5]>
         (<[7 := player "user_7" 1 5]> (<[8 := player "user_8" 1 5]> ∅));
     maps := ∅; maps_seq := 1;
     raid_sessions := ∅; raid_sessions_seq := 1;
     transactions := [] |}.

(** User 5 publishes [walled_grid] as map 1. *)
Definition published_db : db :=
  (maps_create (Some 5) (Some walled_grid) fresh_db).2.

Definition map_1 : map_row :=
  {| creator_id := 5; grid_json := Parsed walled_grid; dug_json := Parsed [];
     difficulty := 1%Q; active := true; is_archived := false |}.

(** A session of user 7 on map 1, begun at time 1000, and the store that
    holds it as session 1. *)
Definition session_1 : raid_session :=
  {| player_id := 7; map_id := 1; current_stage := 1;
     status := active_status; earnings_buffer := 0%Q;
     dug_history := Parsed []; created_at := 1000;
     expires_at := 1000 + session_seconds * microsecond |}.

Definition raiding_db : db :=
  {| users := users published_db; maps := maps published_db;
     maps_seq := maps_seq published_db;
     raid_sessions := <[1 := session_1]> ∅; raid_sessions_seq := 2;
     transactions := [] |}.

(** The REAL values nearest to 0.9 and to 0.01. *)
Definition ninety_cents : Q := Float.to_real 0.9.
Definition one_cent : Q := Float.to_real 0.01.

(** User 7 holds 0.9; session 1 has earned 0.01. *)
Definition earning_session : raid_session :=
  {| player_id := 7; map_id := 1; current_stage := 1;
     status := active_status; earnings_buffer := one_cent;
     dug_history := Parsed [24]; created_at := 1000;
     expires_at := 1000 + session_seconds * microsecond |}.

Definition earning_db : db :=
  {| users := <[7 := player "user_7" ninety_cents 5]> (users published_db);
     maps := maps published_db; maps_seq := maps_seq published_db;
     raid_sessions := <[1 := earning_session]> ∅; raid_sessions_seq := 2;
     transactions := [] |}.

(** Map 1 of user 5 with all 24 empty cells opened: only the chest halves
    at 22 and 23 remain. *)
Definition opened_cells : list Z := map Z.of_nat (seq 24 24).

Definition opened_map : map_row :=
  {| creator_id := 5; grid_json := Parsed walled_grid;
     dug_json := Parsed opened_cells; difficulty := 1%Q;
     active := true; is_archived := false |}.

Definition opened_db : db :=
  {| users := <[5 := player "user_5" 1 4]> ∅;
     maps := <[1 := opened_map]> ∅;
     maps_seq := 2;
     raid_sessions := ∅; raid_sessions_seq := 1;
     transactions := [] |}.

(** The same with a balance of 16777216 (two to the 24th) for user 5. *)
Definition wealthy_db : db :=
  {| users := <[5 := player "user_5" 16777216 4]> ∅;
     maps := <[1 := opened_map]> ∅;
     maps_seq := 2;
     raid_sessions := ∅; raid_sessions_seq := 1;
     transactions := [] |}.

(** A run of requests by users 7 and 5 on [earning_db]. *)
Definition example_run : list request :=
  [POST_raid_start 1000 (Some 7) (Some 1);
   POST_raid_dig 3000 (Some 7) (Some 1) (Some 24);
   POST_raid_leave 5000 (Some 7) (Some 1);
   POST_maps_create (Some 5) (Some fortress_grid);
   POST_my_tombs_claim 6000 (Some 5) (Some 2);
   POST_raid_leave 7000 (Some 7) (Some 1)].

End Scenario.

(** * Rounding *)

Import Float.

(** The three cases of rounding: below half, above half, the tie. *)
Lemma round_pos_cases (p k : Z) :
  0 < p → 0 ≤ k →
  (Z.log2 k + 1 - p ≤ 0 ∧ round_pos p k = k) ∨
  ∃ q m r m', q = Z.log2 k + 1 - p ∧ 0 < q ∧
           2 ^ (p + q - 1) ≤ k < 2 ^ (p + q) ∧
           k = m * 2 ^ q + r ∧ 0 ≤ r < 2 ^ q ∧
           2 ^ (p - 1) ≤ m < 2 ^ p ∧
           round_pos p k = m' * 2 ^ q ∧
           (2 * r < 2 ^ q → m' = m) ∧
           (2 ^ q < 2 * r → m' = m + 1) ∧
           (2 * r = 2 ^ q → m' = if Z.even m then m else m + 1) ∧
           (m' = m ∨ (0 < r ∧ m' = m + 1)).
Proof.
  intros Hp Hk. unfold round_pos. cbv zeta.
  destruct (Z.leb_spec (Z.log2 k + 1 - p) 0) as [Hq|Hq];
    [left; split; [exact Hq|reflexivity]|].
  right. set (q := Z.log2 k + 1 - p) in *.
  assert (Hkpos : 0 < k).
  { destruct (Z.eq_dec k 0) as [->|]; [|lia]. simpl in q. lia. }
  destruct (Z.log2_spec k Hkpos) as [Hlo Hhi].
  replace (Z.log2 k) with (p + q - 1) in Hlo by lia.
  replace (Z.succ (Z.log2 k)) with (p + q) in Hhi by lia.
  assert (H2q : 0 < 2 ^ q) by (apply Z.pow_pos_nonneg; lia).
  pose proof (Z.div_mod k (2 ^ q) ltac:(lia)) as Hdm.
  pose proof (Z.mod_pos_bound k (2 ^ q) H2q) as Hr.
  set (m := k / 2 ^ q) in *. set (r := k mod 2 ^ q) in *.
  assert (Hpow1 : 2 ^ (p + q - 1) = 2 ^ (p - 1) * 2 ^ q).
  { rewrite <- Z.pow_add_r by lia. f_equal. lia. }
  assert (Hpow2 : 2 ^ (p + q) = 2 ^ p * 2 ^ q).
  { rewrite <- Z.pow_add_r by lia. reflexivity. }
  assert (Hhalf : 2 ^ q = 2 * 2 ^ (q - 1)).
  { replace q with (1 + (q - 1)) at 1 by lia.
    rewrite Z.pow_add_r by lia. reflexivity. }
  assert (Hp1 : 0 < 2 ^ (p - 1)) by (apply Z.pow_pos_nonneg; lia).
  assert (Hm : 2 ^ (p - 1) ≤ m < 2 ^ p) by nia.
  exists q, m, r.
  destruct (Z.ltb_spec r (2 ^ (q - 1))) as [Hlt|Hge].
  { exists m. split; [reflexivity|].
    repeat (split; [solve [lia | reflexivity | intros; lia]|]).
    left. reflexivity. }
  destruct (Z.ltb_spec (2 ^ (q - 1)) r) as [Hgt|Hle].
  { exists (m + 1). split; [reflexivity|].
    repeat (split; [solve [lia | reflexivity | intros; lia]|]).
    right. lia. }
  exists (if Z.even m then m else m + 1). split; [reflexivity|].
  repeat (split; [solve [lia | reflexivity | intros; lia]|]).
  destruct (Z.even m); [left; reflexivity|right; lia].
Qed.

Lemma round_pos_nonneg p k : 0 < p → 0 ≤ k → 0 ≤ round_pos p k.
Proof.
  intros Hp Hk.
  destruct (round_pos_cases p k Hp Hk)
    as [[_ ->]|(q & m & r & m' & _ & Hq & _ & _ & _ & Hm & -> & _ & _ & _ & Hm')];
    [lia|].
  assert (0 < 2 ^ q) by (apply Z.pow_pos_nonneg; lia).
  assert (0 < 2 ^ (p - 1)) by (apply Z.pow_pos_nonneg; lia). nia.
Qed.

(** A fixed point of the rounding with as many bits as [k] lies on the grid of
    [k]. *)
Lemma round_pos_fixed_grid p q C :
  0 < p → 0 < q → 2 ^ (p + q - 1) ≤ C < 2 ^ (p + q) →
  round_pos p C = C → ∃ c, C = c * 2 ^ q.
Proof.
  intros Hp Hq HC Hfix.
  assert (HC0 : 0 < C).
  { assert (0 < 2 ^ (p + q - 1)) by (apply Z.pow_pos_nonneg; lia). lia. }
  assert (Hlog : Z.log2 C = p + q - 1).
  { apply Z.log2_unique; [lia|].
    replace (Z.succ (p + q - 1)) with (p + q) by lia. exact HC. }
  unfold round_pos in Hfix. cbv zeta in Hfix. rewrite Hlog in Hfix.
  replace (p + q - 1 + 1 - p) with q in Hfix by lia.
  destruct (Z.leb_spec q 0); [lia|].
  eexists. symmetry. exact Hfix.
Qed.

(** Rounding does not cross a value that it leaves alone. *)
Lemma round_pos_le p k C :
  0 < p → 0 ≤ k ≤ C → round_pos p C = C → round_pos p k ≤ C.
Proof.
  intros Hp Hk Hfix.
  destruct (round_pos_cases p k Hp ltac:(lia))
    as [[_ ->]|(q & m & r & m' & _ & Hq & Hkb & Hkm & Hr & Hm & -> & _ & _ & _
            & Hm')]; [lia|].
  assert (H2q : 0 < 2 ^ q) by (apply Z.pow_pos_nonneg; lia).
  assert (Hpow2 : 2 ^ (p + q) = 2 ^ p * 2 ^ q).
  { rewrite <- Z.pow_add_r by lia. reflexivity. }
  destruct (Z.le_gt_cases (2 ^ (p + q)) C) as [Hbig|Hsame].
  - destruct Hm' as [->|[_ ->]]; nia.
  - destruct (round_pos_fixed_grid p q C Hp Hq ltac:(lia) Hfix) as [c Hc].
    destruct Hm' as [->|[Hrpos ->]]; [nia|].
    assert (m < c) by nia. nia.
Qed.

Lemma round_pos_ge p k C :
  0 < p → 0 ≤ C ≤ k → round_pos p C = C → C ≤ round_pos p k.
Proof.
  intros Hp Hk Hfix.
  destruct (round_pos_cases p k Hp ltac:(lia))
    as [[_ ->]|(q & m & r & m' & _ & Hq & Hkb & Hkm & Hr & Hm & -> & _ & _ & _
            & Hm')]; [lia|].
  assert (H2q : 0 < 2 ^ q) by (apply Z.pow_pos_nonneg; lia).
  assert (Hpow1 : 2 ^ (p + q - 1) = 2 ^ (p - 1) * 2 ^ q).
  { rewrite <- Z.pow_add_r by lia. f_equal. lia. }
  assert (Hlow : m * 2 ^ q ≤ m' * 2 ^ q).
  { destruct Hm' as [->|[_ ->]]; nia. }
  destruct (Z.le_gt_cases (2 ^ (p + q - 1)) C) as [Hsame|Hsmall].
  - destruct (round_pos_fixed_grid p q C Hp Hq ltac:(lia) Hfix) as [c Hc].
    assert (c ≤ m) by nia. nia.
  - nia.
Qed.

(** A number of at most [p] significant bits is not rounded. *)
Lemma round_pos_exact p m a :
  0 < p → 0 ≤ m < 2 ^ p → 0 ≤ a → round_pos p (m * 2 ^ a) = m * 2 ^ a.
Proof.
  intros Hp Hm Ha.
  assert (H2a : 0 < 2 ^ a) by (apply Z.pow_pos_nonneg; lia).
  destruct (round_pos_cases p (m * 2 ^ a) Hp ltac:(nia))
    as [[_ ->]|(q & m1 & r & m' & _ & Hq & Hkb & Hkm & Hr & Hm1 & -> & Hlt & _
            & _ & _)]; [reflexivity|].
  assert (H2q : 0 < 2 ^ q) by (apply Z.pow_pos_nonneg; lia).
  assert (q ≤ a).
  { destruct (Z.le_gt_cases q a); [assumption|exfalso].
    assert (Hle : 2 ^ (p + a) ≤ 2 ^ (p + q - 1))
      by (apply Z.pow_le_mono_r; lia).
    rewrite Z.pow_add_r in Hle by lia. nia. }
  assert (Hsplit : 2 ^ a = 2 ^ (a - q) * 2 ^ q).
  { rewrite <- Z.pow_add_r by lia. f_equal. lia. }
  assert (Hr0 : r = 0).
  { assert (Hmod : (m * 2 ^ a) mod 2 ^ q = 0).
    { rewrite Hsplit, Z.mul_assoc. apply Z.mod_mul. lia. }
    assert (Hmod' : (m1 * 2 ^ q + r) mod 2 ^ q = r).
    { rewrite Z.add_comm, Z.mod_add by lia. apply Z.mod_small. lia. }
    rewrite <- Hkm in Hmod'. lia. }
  rewrite (Hlt ltac:(lia)). lia.
Qed.

Lemma round_pos_0 p : round_pos p 0 = 0.
Proof.
  unfold round_pos. cbv zeta. simpl Z.log2.
  destruct (Z.leb_spec (0 + 1 - p) 0); [reflexivity|].
  rewrite Z.div_0_l, Z.mod_0_l by (apply Z.pow_nonzero; lia).
  assert (0 < 2 ^ (0 + 1 - p - 1)) by (apply Z.pow_pos_nonneg; lia).
  destruct (Z.ltb_spec 0 (2 ^ (0 + 1 - p - 1))); lia.
Qed.

Lemma round_bits_abs p k : 0 < p → Z.abs (round_bits p k) = round_pos p (Z.abs k).
Proof.
  intros Hp. unfold round_bits.
  pose proof (round_pos_nonneg p (Z.abs k) Hp (Z.abs_nonneg k)) as H.
  destruct k as [|k|k]; simpl Z.sgn; [|lia|lia].
  simpl Z.abs. rewrite round_pos_0. reflexivity.
Qed.

Lemma round_bits_nonneg p k : 0 < p → 0 ≤ k → 0 ≤ round_bits p k.
Proof.
  intros Hp Hk. unfold round_bits.
  pose proof (round_pos_nonneg p (Z.abs k) Hp (Z.abs_nonneg k)) as H.
  destruct k; simpl Z.sgn; lia.
Qed.

Lemma round_bits_nonpos p k : 0 < p → k ≤ 0 → round_bits p k ≤ 0.
Proof.
  intros Hp Hk. unfold round_bits.
  pose proof (round_pos_nonneg p (Z.abs k) Hp (Z.abs_nonneg k)) as H.
  destruct k; simpl Z.sgn; lia.
Qed.

Lemma round_bits_pos p k : 0 ≤ k → round_bits p k = round_pos p k.
Proof.
  intros Hk. unfold round_bits. rewrite Z.abs_eq by lia.
  destruct (Z.eq_dec k 0) as [->|Hne].
  - rewrite round_pos_0. reflexivity.
  - rewrite Z.sgn_pos by lia. lia.
Qed.

Lemma round_bits_opp p k : round_bits p (- k) = - round_bits p k.
Proof.
  unfold round_bits. rewrite Z.abs_opp, Z.sgn_opp. lia.
Qed.

(** ** Converting an integer to a float *)

Lemma max_double_fixed : round_pos 53 (2 ^ 1024 - 2 ^ 971) = 2 ^ 1024 - 2 ^ 971.
Proof.
  replace (2 ^ 1024 - 2 ^ 971) with ((2 ^ 53 - 1) * 2 ^ 971) by reflexivity.
  apply round_pos_exact; [lia| |lia]. split; [|lia]. vm_compute. discriminate.
Qed.

Lemma top_binade k :
  2 ^ 1024 - 2 ^ 971 < k < 2 ^ 1024 →
  ∃ r m', k = (2 ^ 53 - 1) * 2 ^ 971 + r ∧ 0 < r < 2 ^ 971 ∧
          round_pos 53 k = m' * 2 ^ 971 ∧
          (2 * r < 2 ^ 971 → m' = 2 ^ 53 - 1) ∧
          (2 ^ 971 ≤ 2 * r → m' = 2 ^ 53).
Proof.
  intros Hk.
  assert (Hlog : Z.log2 k = 1023).
  { apply Z.log2_unique; [lia|]. change (Z.succ 1023) with 1024.
    split; [|lia].
    assert (2 ^ 1023 ≤ 2 ^ 1024 - 2 ^ 971) by (vm_compute; discriminate).
    lia. }
  destruct (round_pos_cases 53 k ltac:(lia) ltac:(lia))
    as [[Hq _]|(q & m & r & m' & Hq & _ & _ & Hkm & Hr & Hm & Hres & Hlt
                 & Hgt & Htie & _)]; [lia|].
  rewrite Hlog in Hq. assert (q = 971) by lia. subst q.
  assert (HC : 2 ^ 1024 - 2 ^ 971 = (2 ^ 53 - 1) * 2 ^ 971) by reflexivity.
  assert (H1024 : 2 ^ 1024 = 2 ^ 53 * 2 ^ 971) by reflexivity.
  assert (H971 : 0 < 2 ^ 971) by (vm_compute; reflexivity).
  assert (Hm53 : m = 2 ^ 53 - 1) by nia. subst m.
  exists r, m'. split; [lia|]. split; [lia|]. split; [exact Hres|].
  split; [exact Hlt|]. intros Hge.
  destruct (Z.eq_dec (2 * r) (2 ^ 971)) as [Heq|Hne].
  - rewrite (Htie Heq). vm_compute. reflexivity.
  - rewrite (Hgt ltac:(lia)). lia.
Qed.

Lemma float_of_int_in_range n :
  Z.abs n < float_limit → float_of_int n = Some (round_bits 53 n).
Proof.
  unfold float_limit, float_of_int. intros Hn. cbv zeta.
  rewrite round_bits_abs by lia.
  assert (Hmax : 2 ^ 1024 - 2 ^ 971 < 2 ^ 1024) by (vm_compute; reflexivity).
  assert (Hlim : 2 ^ 1024 - 2 ^ 970 < 2 ^ 1024) by (vm_compute; reflexivity).
  assert (H971 : 2 ^ 971 = 2 * 2 ^ 970) by reflexivity.
  assert (Hr : round_pos 53 (Z.abs n) < 2 ^ 1024).
  { destruct (Z.le_gt_cases (Z.abs n) (2 ^ 1024 - 2 ^ 971)) as [Hle|Hgt].
    - pose proof (round_pos_le 53 (Z.abs n) _ ltac:(lia)
                    (conj (Z.abs_nonneg n) Hle) max_double_fixed). lia.
    - destruct (top_binade (Z.abs n) ltac:(lia))
        as (r & m' & Hk & Hr & -> & Hlt & _).
      rewrite (Hlt ltac:(lia)). exact Hmax. }
  destruct (Z.leb_spec (2 ^ 1024) (round_pos 53 (Z.abs n))); [lia|reflexivity].
Qed.

Lemma float_of_int_overflow n :
  float_limit ≤ Z.abs n → float_of_int n = None.
Proof.
  unfold float_limit, float_of_int. intros Hn. cbv zeta.
  rewrite round_bits_abs by lia.
  assert (Hmax : 2 ^ 1024 - 2 ^ 971 < 2 ^ 1024 - 2 ^ 970)
    by (vm_compute; reflexivity).
  assert (H971 : 2 ^ 971 = 2 * 2 ^ 970) by reflexivity.
  assert (H1024 : 2 ^ 1024 = 2 ^ 53 * 2 ^ 971) by reflexivity.
  assert (Hr : 2 ^ 1024 ≤ round_pos 53 (Z.abs n)).
  { destruct (Z.le_gt_cases (2 ^ 1024) (Z.abs n)) as [Hge|Hlt].
    - apply round_pos_ge; [lia|lia|].
      replace (2 ^ 1024) with (1 * 2 ^ 1024) by lia.
      apply round_pos_exact; lia.
    - destruct (top_binade (Z.abs n) ltac:(lia))
        as (r & m' & Hk & Hr & -> & _ & Hge).
      rewrite (Hge ltac:(lia)). lia. }
  destruct (Z.leb_spec (2 ^ 1024) (round_pos 53 (Z.abs n))); [reflexivity|lia].
Qed.

(** An integer of at most 53 bits is a float. *)
Lemma round_bits_small n : Z.abs n ≤ 2 ^ 53 → round_bits 53 n = n.
Proof.
  intros Hn. unfold round_bits.
  assert (Hpos : round_pos 53 (Z.abs n) = Z.abs n).
  { destruct (Z.eq_dec (Z.abs n) (2 ^ 53)) as [->|Hne].
    - replace (2 ^ 53) with (1 * 2 ^ 53) by lia.
      apply round_pos_exact; lia.
    - replace (Z.abs n) with (Z.abs n * 2 ^ 0) by lia.
      apply round_pos_exact; lia. }
  rewrite Hpos. destruct n; simpl; lia.
Qed.

(** ** The freshness test *)

Lemma Qle_bool_units a k p :
  Qle_bool (inject_Z a) (Qred (k # p)) = true ↔ a * Zpos p ≤ k.
Proof.
  rewrite Qle_bool_iff, Qred_correct. unfold Qle. simpl. lia.
Qed.

Lemma double_units_clock now f j :
  (now * inject_Z (2 ^ 35) == inject_Z j)%Q →
  double_units (now - inject_Z f) = j * 2 ^ 1039 - f * 2 ^ 1074.
Proof.
  intros Hj. unfold double_units.
  assert (Heq : ((now - inject_Z f) * inject_Z (2 ^ 1074)
                 == inject_Z (j * 2 ^ 1039 - f * 2 ^ 1074))%Q).
  { replace (2 ^ 1074) with (2 ^ 35 * 2 ^ 1039) at 1 by reflexivity.
    unfold Z.sub. rewrite inject_Z_plus, inject_Z_opp, !inject_Z_mult.
    rewrite <- Hj.
    replace (2 ^ 1074) with (2 ^ 35 * 2 ^ 1039) by reflexivity.
    rewrite inject_Z_mult. ring. }
  rewrite Heq. apply Qfloor_Z.
Qed.

Lemma window_units : 86400 * 2 ^ 1074 = 675 * 2 ^ 1081.
Proof. reflexivity. Qed.

Lemma window_fixed : round_pos 53 (86400 * 2 ^ 1074) = 86400 * 2 ^ 1074.
Proof. rewrite window_units. apply round_pos_exact; lia. Qed.

Lemma below_window_fixed :
  round_pos 53 ((86400 * 2 ^ 35 - 1) * 2 ^ 1039)
  = (86400 * 2 ^ 35 - 1) * 2 ^ 1039.
Proof. apply round_pos_exact; lia. Qed.

(** On a reading of the clock and an integer that converts to a float, the
    test [time.time() - auth_date >= 86400] decides as the exact difference
    does. *)
Lemma freshness_test now n :
  clock now → Z.abs n < float_limit →
  ∃ elapsed, float_sub_int now n = Some elapsed ∧
             (Qle_bool Auth.window elapsed = true
              ↔ (Auth.window <= now - inject_Z n)%Q).
Proof.
  intros (j & Hj & Hnow) Hn. unfold float_sub_int.
  rewrite (float_of_int_in_range n Hn). eexists. split; [reflexivity|].
  unfold to_double, of_double_units, Auth.window.
  rewrite (double_units_clock now _ j Hnow).
  change 86400%Q with (inject_Z 86400). rewrite Qle_bool_units.
  rewrite Z2Pos.id by (vm_compute; reflexivity).
  set (f := round_bits 53 n). set (K := j * 2 ^ 1039 - f * 2 ^ 1074).
  assert (Hexact : (inject_Z 86400 <= now - inject_Z n)%Q
                   ↔ 86400 * 2 ^ 35 ≤ j - n * 2 ^ 35).
  { assert (Hpos : (0 < inject_Z (2 ^ 35))%Q) by reflexivity.
    rewrite <- (Qmult_le_r _ _ _ Hpos).
    assert (Hl : (inject_Z 86400 * inject_Z (2 ^ 35)
                  == inject_Z (86400 * 2 ^ 35))%Q)
      by (rewrite inject_Z_mult; reflexivity).
    assert (Hr : ((now - inject_Z n) * inject_Z (2 ^ 35)
                  == inject_Z (j - n * 2 ^ 35))%Q).
    { unfold Z.sub. rewrite inject_Z_plus, inject_Z_opp, inject_Z_mult.
      rewrite <- Hnow. ring. }
    rewrite Hl, Hr. rewrite <- Zle_Qle. reflexivity. }
  rewrite Hexact. clear Hexact.
  assert (H74 : 2 ^ 1074 = 2 ^ 35 * 2 ^ 1039) by reflexivity.
  assert (H39 : 0 < 2 ^ 1039) by (vm_compute; reflexivity).
  assert (H88 : 2 ^ 88 = 2 ^ 53 * 2 ^ 35) by reflexivity.
  destruct (Z.le_gt_cases (Z.abs n) (2 ^ 53)) as [Hsmall|Hbig].
  - assert (Hf : f = n) by (apply round_bits_small; exact Hsmall).
    assert (HK : K = (j - n * 2 ^ 35) * 2 ^ 1039) by (unfold K; nia).
    split.
    + intros HE.
      destruct (Z.le_gt_cases (86400 * 2 ^ 35) (j - n * 2 ^ 35)) as [|Hlt];
        [assumption|exfalso].
      assert (HKC : K ≤ (86400 * 2 ^ 35 - 1) * 2 ^ 1039) by nia.
      destruct (Z.le_gt_cases 0 K) as [HK0|HK0].
      * rewrite round_bits_pos in HE by exact HK0.
        pose proof (round_pos_le 53 K _ ltac:(lia) (conj HK0 HKC)
                      below_window_fixed). nia.
      * pose proof (round_bits_nonpos 53 K ltac:(lia) ltac:(lia)). nia.
    + intros HD.
      assert (HKT : 86400 * 2 ^ 1074 ≤ K) by nia.
      rewrite round_bits_pos by nia.
      apply round_pos_ge; [lia|nia|exact window_fixed].
  - assert (H53 : round_pos 53 (2 ^ 53) = 2 ^ 53).
    { replace (2 ^ 53) with (1 * 2 ^ 53) by lia. apply round_pos_exact; lia. }
    destruct (Z.le_gt_cases 0 n) as [Hpos|Hneg].
    + assert (Hf : 2 ^ 53 ≤ f).
      { unfold f. rewrite round_bits_pos by lia.
        apply round_pos_ge; [lia|lia|exact H53]. }
      assert (HK0 : K ≤ 0) by (unfold K; nia).
      pose proof (round_bits_nonpos 53 K ltac:(lia) HK0).
      split; intros; nia.
    + assert (Hf : f ≤ - 2 ^ 53).
      { unfold f. replace n with (- - n) by lia. rewrite round_bits_opp.
        rewrite round_bits_pos by lia.
        pose proof (round_pos_ge 53 (- n) (2 ^ 53) ltac:(lia) ltac:(lia) H53).
        lia. }
      assert (HKT : 86400 * 2 ^ 1074 ≤ K) by (unfold K; nia).
      split; intros _; [nia|].
      rewrite round_bits_pos by nia.
      apply round_pos_ge; [lia|nia|exact window_fixed].
Qed.

Lemma float_sub_int_overflow now n :
  float_limit ≤ Z.abs n → float_sub_int now n = None.
Proof.
  intros Hn. unfold float_sub_int. rewrite (float_of_int_overflow n Hn).
  reflexivity.
Qed.

(** ** REAL sums *)

Lemma real_units_nonneg x : (0 <= x)%Q → 0 ≤ real_units x.
Proof.
  intros Hx. unfold real_units. change 0 with (Qfloor 0).
  apply Qfloor_resp_le. apply Qmult_le_0_compat; [exact Hx|discriminate].
Qed.

Lemma real_of_units_nonneg k : 0 ≤ k → (0 <= real_of_units k)%Q.
Proof.
  intros Hk. unfold real_of_units. rewrite Qred_correct.
  unfold Qle. simpl. lia.
Qed.

Lemma real_units_of_units k : real_units (real_of_units k) = k.
Proof.
  unfold real_units, real_of_units.
  assert (Heq : (Qred (k # Z.to_pos (2 ^ 149)) * inject_Z (2 ^ 149)
                 == inject_Z k)%Q).
  { rewrite Qred_correct. unfold Qeq. simpl. lia. }
  rewrite Heq. apply Qfloor_Z.
Qed.

Lemma real_of_units_plus a b :
  (real_of_units a + real_of_units b == real_of_units (a + b))%Q.
Proof.
  unfold real_of_units. rewrite !Qred_correct. unfold Qeq. simpl. lia.
Qed.

(** A sum of amounts that are not negative is not negative. *)
Lemma real_sum_nonneg b e : (0 <= b)%Q → (0 <= e)%Q → (0 <= real_sum b e)%Q.
Proof.
  intros Hb He. unfold real_sum, real_sum_units.
  apply real_of_units_nonneg, round_bits_nonneg; [lia|].
  apply round_bits_nonneg; [lia|].
  pose proof (real_units_nonneg b Hb). pose proof (real_units_nonneg e He).
  lia.
Qed.

Lemma real_plus_Some b e b' :
  real_plus b e = Some b' ↔
  b' = real_sum b e ∧ Z.abs (real_sum_units b e) ≤ real_max.
Proof.
  unfold real_plus.
  destruct (Z.ltb_spec real_max (Z.abs (real_sum_units b e))).
  - split; [discriminate|]. intros [_ ?]. lia.
  - split; [intros [= <-]; split; [reflexivity|assumption]|].
    intros [-> _]. reflexivity.
Qed.

Lemma real_plus_None b e :
  real_plus b e = None ↔ real_max < Z.abs (real_sum_units b e).
Proof.
  unfold real_plus.
  destruct (Z.ltb_spec real_max (Z.abs (real_sum_units b e)));
    split; (discriminate || lia || reflexivity || (intros; assumption)).
Qed.

(** What is a number of [p] bits is one of [p'] bits for [p' >= p]. *)
Lemma round_pos_fixed_more p p' k :
  0 < p ≤ p' → 0 ≤ k → round_pos p k = k → round_pos p' k = k.
Proof.
  intros Hp Hk Hfix.
  destruct (round_pos_cases p k ltac:(lia) Hk)
    as [[Hq _]|(q & m & r & m' & _ & Hq & _ & _ & _ & Hm & Hres & _ & _ & _
                 & Hm')].
  - unfold round_pos. cbv zeta.
    destruct (Z.leb_spec (Z.log2 k + 1 - p') 0); [reflexivity|lia].
  - destruct (Z.eq_dec p p') as [<-|Hne]; [exact Hfix|].
    rewrite Hfix in Hres. rewrite Hres.
    apply round_pos_exact; [lia| |lia].
    assert (2 ^ p < 2 ^ p') by (apply Z.pow_lt_mono_r; lia).
    assert (0 < 2 ^ (p - 1)) by (apply Z.pow_pos_nonneg; lia).
    destruct Hm' as [->|[_ ->]]; lia.
Qed.

Lemma round_bits_fixed_more p p' k :
  0 < p ≤ p' → round_bits p k = k → round_bits p' k = k.
Proof.
  intros Hp Hfix. unfold round_bits in *.
  destruct (Z.lt_trichotomy k 0) as [Hk|[->|Hk]].
  - rewrite Z.sgn_neg in * by exact Hk.
    rewrite (round_pos_fixed_more p p' _ Hp (Z.abs_nonneg k)); lia.
  - simpl Z.abs. rewrite round_pos_0. reflexivity.
  - rewrite Z.sgn_pos in * by exact Hk.
    rewrite (round_pos_fixed_more p p' _ Hp (Z.abs_nonneg k)); lia.
Qed.

(** A sum that is a REAL value is stored as it is. *)
Lemma real_sum_exact b e :
  is_real b → is_real e →
  round_bits 24 (real_units b + real_units e) = real_units b + real_units e →
  (real_sum b e == b + e)%Q.
Proof.
  intros (Hb & _ & _) (He & _ & _) Hfix.
  unfold real_sum, real_sum_units.
  rewrite (round_bits_fixed_more 24 53 _ ltac:(lia) Hfix), Hfix.
  rewrite <- real_of_units_plus, <- Hb, <- He. reflexivity.
Qed.

Lemma real_max_fixed : round_pos 24 real_max = real_max.
Proof. unfold real_max. apply round_pos_exact; lia. Qed.

(** An amount of at most a quarter of the last place of the largest REAL
    value, added to a REAL value, stays in the range of REAL. *)
Lemma real_plus_small b e :
  Z.abs (real_units b) ≤ real_max → Z.abs (real_units e) ≤ 2 ^ 251 →
  real_plus b e = Some (real_sum b e).
Proof.
  intros Hb He. apply real_plus_Some. split; [reflexivity|].
  unfold real_sum_units. rewrite !round_bits_abs by lia.
  set (K := Z.abs (real_units b + real_units e)).
  assert (HK : 0 ≤ K ≤ real_max + 2 ^ 251) by (unfold K; lia).
  assert (HC0 : round_pos 53 (real_max + 2 ^ 251) = real_max + 2 ^ 251).
  { replace (real_max + 2 ^ 251) with ((2 ^ 26 - 3) * 2 ^ 251) by reflexivity.
    apply round_pos_exact; lia. }
  pose proof (round_pos_le 53 K _ ltac:(lia) HK HC0) as HN.
  pose proof (round_pos_nonneg 53 K ltac:(lia) ltac:(lia)) as HN0.
  set (N := round_pos 53 K) in *.
  destruct (Z.le_gt_cases N real_max) as [Hle|Hgt].
  - apply round_pos_le; [lia|lia|exact real_max_fixed].
  - assert (Hlog : Z.log2 N = 276).
    { apply Z.log2_unique; [lia|]. change (Z.succ 276) with 277.
      assert (2 ^ 276 ≤ real_max) by (vm_compute; discriminate).
      assert (real_max + 2 ^ 251 < 2 ^ 277) by (vm_compute; reflexivity).
      lia. }
    destruct (round_pos_cases 24 N ltac:(lia) HN0)
      as [[Hq _]|(q & m & r & m' & Hq & _ & _ & Hkm & Hr & Hm & -> & Hlt & _
                   & _ & _)]; [lia|].
    rewrite Hlog in Hq. assert (q = 253) by lia. subst q.
    assert (Hmax : real_max = (2 ^ 24 - 1) * 2 ^ 253) by reflexivity.
    assert (H253 : 2 ^ 253 = 4 * 2 ^ 251) by reflexivity.
    assert (H251 : 0 < 2 ^ 251) by (vm_compute; reflexivity).
    assert (m = 2 ^ 24 - 1) by nia. subst m.
    rewrite (Hlt ltac:(lia)). lia.
Qed.

(** * Properties of the signature validator *)

Import Auth.

(** ** Test vectors for the hash functions *)

(** FIPS 180-4, the one-block message [abc]. *)
Example sha256_abc :
  hexdigest (Sha256.sha256 (encode "abc"))
  = "ba7816bf8f01cfea414140de5dae2223b00361a396177a9cb410ff61f20015ad".
Proof. vm_compute. reflexivity. Qed.

(** RFC 4231, test case 2. *)
Example hmac_sha256_rfc4231_2 :
  hexdigest
    (Sha256.hmac_sha256 (encode "Jefe")
       (encode "what do ya want for nothing?"))
  = "5bdcc146bf60754e6a042426089575c75a003f089d2739839dec58b964ec3843".
Proof. vm_compute. reflexivity. Qed.

(** The reference [parse_qsl] keeps blank values, decodes [+] and percent
    escapes, and splits a field at its first [=]. *)
Example parse_qsl_fields :
  Ref.parse_qsl "a=1&b=x+y%20z&&c&d=e=f&a=2"
  = Some [("a", "1"); ("b", "x y z"); ("c", EmptyString); ("d", "e=f");
          ("a", "2")].
Proof. vm_compute. reflexivity. Qed.

(** [dict] keeps the first position and the last value of a repeated key. *)
Example dict_last_value_wins :
  dict [("a", "1"); ("b", "x"); ("a", "2")] = [("a", "2"); ("b", "x")].
Proof. reflexivity. Qed.

(** ** Strings, dictionaries, sorting *)

Lemma str_ltb_trans a b c :
  str_ltb a b = true → str_ltb b c = true → str_ltb a c = true.
Proof.
  unfold str_ltb. intros Hab Hbc.
  destruct (String.compare a b) eqn:Eab; try discriminate.
  destruct (String.compare b c) eqn:Ebc; try discriminate.
  apply String_as_OT.cmp_lt in Eab, Ebc.
  pose proof (String_as_OT.lt_trans _ _ _ Eab Ebc) as Hac.
  apply String_as_OT.cmp_lt in Hac. unfold String_as_OT.cmp in Hac.
  rewrite Hac. reflexivity.
Qed.

Lemma str_ltb_irrefl a : str_ltb a a = false.
Proof.
  unfold str_ltb.
  assert (H : String.compare a a = Eq) by (apply String_as_OT.cmp_eq; reflexivity).
  rewrite H. reflexivity.
Qed.

Lemma str_ltb_total a b : a ≠ b → str_ltb a b = false → str_ltb b a = true.
Proof.
  unfold str_ltb. intros Hne Hab.
  rewrite (String.compare_antisym b a).
  destruct (String.compare a b) eqn:E; simpl; try discriminate; try reflexivity.
  apply String_as_OT.cmp_eq in E. contradiction.
Qed.

Lemma string_eqb_false a b : a ≠ b → String.eqb a b = false.
Proof. intros H. destruct (String.eqb_spec a b); [contradiction|reflexivity]. Qed.

(** Dictionaries hold one entry per key. *)
Section dict_facts.
Context {V : Type}.
Implicit Types d : list (string * V).

Lemma dict_set_keys k v d :
  ∀ k', k' ∈ map fst (dict_set k v d) ↔ k' = k ∨ k' ∈ map fst d.
Proof.
  induction d as [|[k0 v0] d IH]; intros k'; simpl.
  - rewrite elem_of_cons, elem_of_nil. tauto.
  - destruct (String.eqb_spec k0 k) as [->|Hne]; simpl.
    + rewrite !elem_of_cons. tauto.
    + rewrite !elem_of_cons, IH. tauto.
Qed.

Lemma dict_set_NoDup k v d :
  NoDup (map fst d) → NoDup (map fst (dict_set k v d)).
Proof.
  induction d as [|[k0 v0] d IH]; simpl; intros Hnd.
  - constructor; [apply not_elem_of_nil|constructor].
  - inversion Hnd as [|? ? Hnin Hd]; subst.
    destruct (String.eqb_spec k0 k) as [->|Hne]; simpl.
    + constructor; assumption.
    + constructor; [|apply IH; assumption].
      rewrite dict_set_keys. intros [->|Hin]; [congruence|contradiction].
Qed.

Lemma dict_NoDup (pairs : list (string * V)) : NoDup (map fst (dict pairs)).
Proof.
  unfold dict.
  assert (H : ∀ d, NoDup (map fst d) →
    NoDup (map fst (fold_left (fun d kv => dict_set (fst kv) (snd kv) d) pairs d))).
  { induction pairs as [|kv pairs IH]; intros d Hd; simpl; [exact Hd|].
    apply IH, dict_set_NoDup, Hd. }
  apply H. constructor.
Qed.

Lemma dict_pop_keys k d :
  ∀ k', k' ∈ map fst (dict_pop k d) → k' ∈ map fst d.
Proof.
  induction d as [|[k0 v0] d IH]; intros k'; simpl; [tauto|].
  destruct (String.eqb k0 k); simpl; rewrite !elem_of_cons; [tauto|].
  intros [->|Hin]; [tauto|right; apply IH, Hin].
Qed.

Lemma dict_pop_NoDup k d : NoDup (map fst d) → NoDup (map fst (dict_pop k d)).
Proof.
  induction d as [|[k0 v0] d IH]; simpl; intros Hnd; [constructor|].
  inversion Hnd as [|? ? Hnin Hd]; subst.
  destruct (String.eqb k0 k); simpl; [assumption|].
  constructor; [|apply IH; assumption].
  intros Hin. apply Hnin. eapply dict_pop_keys, Hin.
Qed.

Lemma dict_get_pop_ne k k' d : k ≠ k' → dict_get k' (dict_pop k d) = dict_get k' d.
Proof.
  intros Hne. induction d as [|[k0 v0] d IH]; simpl; [reflexivity|].
  destruct (String.eqb_spec k0 k) as [->|Hne0]; simpl.
  - rewrite (string_eqb_false k k' Hne). reflexivity.
  - destruct (String.eqb k0 k'); [reflexivity|exact IH].
Qed.
End dict_facts.

(** [sorted] on items with distinct keys. *)
Lemma insert_item_perm x l : insert_item x l ≡ₚ x :: l.
Proof.
  induction l as [|y l IH]; simpl; [reflexivity|].
  destruct (item_leb x y); [reflexivity|].
  rewrite IH. apply Permutation_swap.
Qed.

Lemma sorted_perm l : sorted l ≡ₚ l.
Proof.
  induction l as [|x l IH]; simpl; [reflexivity|].
  rewrite insert_item_perm, IH. reflexivity.
Qed.

Lemma insert_item_key_sorted x l :
  key_sorted l → fst x ∉ map fst l → key_sorted (insert_item x l).
Proof.
  unfold key_sorted.
  induction l as [|y l IH]; simpl; intros Hs Hnin.
  - repeat constructor.
  - inversion Hs as [|? ? Hl Hy]; subst.
    rewrite not_elem_of_cons in Hnin. destruct Hnin as [Hne Hnin].
    unfold item_leb. rewrite (string_eqb_false _ _ Hne), orb_false_r; simpl.
    destruct (str_ltb (fst x) (fst y)) eqn:Hxy.
    + constructor; [exact Hs|]. constructor; [exact Hxy|].
      eapply Forall_impl; [exact Hy|]. intros z Hz. simpl in Hz.
      eapply str_ltb_trans; eassumption.
    + constructor; [apply IH; assumption|].
      rewrite insert_item_perm. constructor; [|exact Hy].
      apply str_ltb_total; [congruence|exact Hxy].
Qed.

Lemma sorted_key_sorted l : NoDup (map fst l) → key_sorted (sorted l).
Proof.
  induction l as [|x l IH]; simpl; intros Hnd; [constructor|].
  inversion Hnd as [|? ? Hnin Hl]; subst.
  apply insert_item_key_sorted; [apply IH, Hl|].
  intros Hin. apply Hnin.
  apply list_elem_of_fmap in Hin as (y & -> & Hy).
  apply list_elem_of_fmap. exists y. split; [reflexivity|].
  rewrite <- (sorted_perm l). exact Hy.
Qed.

Lemma key_sorted_unique l1 l2 :
  key_sorted l1 → key_sorted l2 → l1 ≡ₚ l2 → l1 = l2.
Proof.
  unfold key_sorted. revert l2.
  induction l1 as [|x l1 IH]; intros l2 H1 H2 Hp.
  - apply Permutation_nil_l in Hp. congruence.
  - destruct l2 as [|y l2]; [apply Permutation_nil_r in Hp; discriminate|].
    inversion H1 as [|? ? Hs1 Hx]; subst.
    inversion H2 as [|? ? Hs2 Hy]; subst.
    assert (Hxy : x = y).
    { assert (Hxin : x ∈ y :: l2) by (rewrite <- Hp; left).
      assert (Hyin : y ∈ x :: l1) by (rewrite Hp; left).
      rewrite elem_of_cons in Hxin, Hyin.
      destruct Hxin as [->|Hxin]; [reflexivity|].
      destruct Hyin as [->|Hyin]; [reflexivity|].
      rewrite Forall_forall in Hx, Hy.
      pose proof (Hx y Hyin) as Hlt1. pose proof (Hy x Hxin) as Hlt2.
      pose proof (str_ltb_trans _ _ _ Hlt1 Hlt2) as Hbad.
      rewrite str_ltb_irrefl in Hbad. discriminate. }
    subst y. f_equal. apply IH; try assumption.
    eapply Permutation_cons_inv. exact Hp.
Qed.

(** The check string the code builds is the one the signature is made of. *)
Lemma sorted_is_the_sorted_fields data fields :
  NoDup (map fst data) → fields ≡ₚ data → key_sorted fields →
  sorted data = fields.
Proof.
  intros Hnd Hp Hs. apply key_sorted_unique.
  - apply sorted_key_sorted, Hnd.
  - exact Hs.
  - rewrite sorted_perm. symmetry. exact Hp.
Qed.

Lemma hex_digit_ascii n : (N_of_ascii (hex_digit n) <? 128)%N = true.
Proof.
  unfold hex_digit.
  generalize (Z.to_nat n) as k. intros k.
  do 16 (destruct k as [|k]; [reflexivity|]).
  destruct k; reflexivity.
Qed.

Lemma hexdigest_ascii digest : is_ascii (hexdigest digest) = true.
Proof.
  unfold is_ascii, hexdigest. rewrite list_ascii_of_string_of_list_ascii.
  induction digest as [|b digest IH]; simpl; [reflexivity|].
  rewrite !hex_digit_ascii. exact IH.
Qed.

(** ** [validate_init_data] *)

Section validate_facts.
Variable parse_qsl : string -> option (list (string * string)).
Variable py_int : string -> option Z.
Variable hmac_sha256 : list byte -> list byte -> list byte.
Variable json_loads : string -> option json.
Variable token : string.
Variable now : Q.

Let validate : string -> outcome :=
  validate_init_data parse_qsl py_int hmac_sha256 json_loads (Some token) now.

Hypothesis token_set : token ≠ EmptyString.
Hypothesis now_clock : Float.clock now.

Lemma calculated_hash_signs pairs expected :
  signs hmac_sha256 token expected (dict_pop "hash" (dict pairs)) →
  hexdigest
    (hmac_sha256 (hmac_sha256 (encode "WebAppData") (encode token))
       (encode (join newline
                  (map key_value (sorted (dict_pop "hash" (dict pairs)))))))
  = expected.
Proof.
  intros (fields & Hp & Hs & ->). unfold signature.
  rewrite (sorted_is_the_sorted_fields _ fields); [reflexivity| |exact Hp|exact Hs].
  apply dict_pop_NoDup, dict_NoDup.
Qed.

(** An [auth_date] beyond the range of a float makes the validator raise
    [OverflowError], before the hash is read. *)
Lemma validate_init_data_overflow init_data pairs auth_date auth :
  init_data ≠ "mock_init_data" →
  parse_qsl init_data = Some pairs →
  dict_get "auth_date" (dict pairs) = Some auth_date →
  py_int auth_date = Some auth →
  Float.float_limit ≤ Z.abs auth →
  validate init_data = Raise OverflowError.
Proof.
  intros Hmock Hparse Ha Hi Hbig. unfold validate, validate_init_data.
  rewrite (string_eqb_false _ _ Hmock), (string_eqb_false _ _ token_set).
  rewrite Hparse, Ha, Hi, (float_sub_int_overflow now auth Hbig).
  reflexivity.
Qed.

(** C1 (amended). With a bot token configured, on a reading of the clock,
    and for every payload other than the literal bypass string: a payload
    whose [hash] is the hex HMAC-SHA256, keyed by
    HMAC-SHA256('WebAppData', token), of the other fields sorted by key and
    joined by newlines, whose [auth_date] is an integer in the range of a
    float and less than 24 hours old, and whose [user] is a JSON object with
    an [id], validates to that id; provided [auth_date], when present, is
    an integer literal in the range of a float, the result is invalid when
    the [hash] field is absent and when the [hash] differs from the
    signature and is ASCII; and it is invalid when [auth_date] is in the
    range of a float and 24 hours old or older, the boundary included. *)
Theorem validate_init_data_spec (init_data : string)
  (pairs : list (string * string)) :
  init_data ≠ "mock_init_data" →
  parse_qsl init_data = Some pairs →
  let data := dict pairs in
  let fields := dict_pop "hash" data in
  (∀ auth_date auth received user user_data id,
      dict_get "auth_date" data = Some auth_date →
      py_int auth_date = Some auth →
      Z.abs auth < Float.float_limit →
      (now - inject_Z auth < window)%Q →
      dict_get "hash" data = Some received →
      signs hmac_sha256 token received fields →
      dict_get "user" data = Some user →
      json_loads user = Some (JDict user_data) →
      dict_get "id" user_data = Some id →
      validate init_data = Return id) ∧
  ((∀ auth_date, dict_get "auth_date" data = Some auth_date →
                 ∃ auth, py_int auth_date = Some auth ∧
                         Z.abs auth < Float.float_limit) →
   (dict_get "hash" data = None → validate init_data = Return JNull) ∧
   (∀ received expected,
       dict_get "hash" data = Some received →
       signs hmac_sha256 token expected fields →
       received ≠ expected →
       is_ascii received = true →
       validate init_data = Return JNull)) ∧
  (∀ auth_date auth,
      dict_get "auth_date" data = Some auth_date →
      py_int auth_date = Some auth →
      Z.abs auth < Float.float_limit →
      (window <= now - inject_Z auth)%Q →
      validate init_data = Return JNull).
Proof.
  intros Hmock Hparse data fields.
  subst data fields.
  unfold validate, validate_init_data.
  rewrite (string_eqb_false _ _ Hmock), (string_eqb_false _ _ token_set), Hparse.
  repeat split.
  - intros auth_date auth received user user_data id Ha Hi Hr Hfresh Hh Hs Hu
      Hj Hid.
    rewrite Ha, Hi.
    destruct (freshness_test now auth now_clock Hr) as (elapsed & -> & Hw).
    destruct (Qle_bool window elapsed) eqn:Hold.
    { exfalso. eapply Qlt_not_le; [exact Hfresh|]. apply Hw. reflexivity. }
    rewrite Hh.
    rewrite (calculated_hash_signs pairs received Hs).
    assert (Hasc : is_ascii received = true).
    { destruct Hs as (f & _ & _ & ->). apply hexdigest_ascii. }
    unfold compare_digest. rewrite Hasc. simpl.
    rewrite String.eqb_refl.
    rewrite dict_get_pop_ne by discriminate.
    rewrite Hu, Hj, Hid. reflexivity.
  - intros Hh.
    destruct (dict_get "auth_date" (dict pairs)) as [a|] eqn:Ha; [|reflexivity].
    destruct (H a eq_refl) as (auth & -> & Hr).
    destruct (freshness_test now auth now_clock Hr) as (elapsed & -> & _).
    destruct (Qle_bool _ _); [reflexivity|]. rewrite Hh. reflexivity.
  - intros received expected Hh Hs Hne Hasc.
    destruct (dict_get "auth_date" (dict pairs)) as [a|] eqn:Ha; [|reflexivity].
    destruct (H a eq_refl) as (auth & -> & Hr).
    destruct (freshness_test now auth now_clock Hr) as (elapsed & -> & _).
    destruct (Qle_bool _ _); [reflexivity|]. rewrite Hh.
    rewrite (calculated_hash_signs pairs expected Hs).
    assert (Hexp : is_ascii expected = true).
    { destruct Hs as (f & _ & _ & ->). apply hexdigest_ascii. }
    unfold compare_digest. rewrite Hasc, Hexp. simpl.
    rewrite (string_eqb_false _ _ Hne). reflexivity.
  - intros auth_date auth Ha Hi Hr Hold.
    rewrite Ha, Hi.
    destruct (freshness_test now auth now_clock Hr) as (elapsed & -> & Hw).
    rewrite (proj2 Hw Hold). reflexivity.
Qed.
End validate_facts.

Lemma launch_fields_sign :
  signs Sha256.hmac_sha256 Scenario.bot_token Scenario.launch_hash
    Scenario.launch_fields.
Proof.
  exists Scenario.launch_fields. split; [reflexivity|]. split; [|reflexivity].
  repeat constructor.
Qed.

Lemma an_hour_later_clock : Float.clock Scenario.an_hour_later.
Proof.
  exists (127056 * 2 ^ 35). split; [split; vm_compute; discriminate|].
  vm_compute. reflexivity.
Qed.

Lemma validate_init_data_spec_witness :
  Scenario.validate Scenario.signed_payload = Return (JInt 123).
Proof.
  pose proof (validate_init_data_spec Ref.parse_qsl Ref.py_int
                Sha256.hmac_sha256 Ref.json_loads Scenario.bot_token
                Scenario.an_hour_later ltac:(discriminate)
                an_hour_later_clock
                Scenario.signed_payload
                [("user", Scenario.user_json); ("auth_date", "123456");
                 ("hash", Scenario.launch_hash)]
                ltac:(vm_compute; discriminate)
                ltac:(vm_compute; reflexivity)) as [Hvalid _].
  eapply (Hvalid "123456" 123456 Scenario.launch_hash Scenario.user_json
            [("id", JInt 123); ("username", JStr "test")]).
  - vm_compute. reflexivity.
  - vm_compute. reflexivity.
  - vm_compute. reflexivity.
  - vm_compute. reflexivity.
  - vm_compute. reflexivity.
  - destruct launch_fields_sign as (fields & Hp & Hs & Hh).
    exists fields. split; [|split; [exact Hs|exact Hh]].
    rewrite Hp. vm_compute. apply Permutation_swap.
  - vm_compute. reflexivity.
  - vm_compute. reflexivity.
  - reflexivity.
Defined.

(** C1, counterexample. The payload [mock_init_data] has no [hash] field
    and is not invalid: it validates to the fixed identity 1. *)
Lemma validate_init_data_mock_bypass :
  Ref.parse_qsl "mock_init_data" = Some [("mock_init_data", EmptyString)] ∧
  dict_get "hash" (dict [("mock_init_data", EmptyString)]) = None ∧
  Scenario.validate "mock_init_data" = Return (JInt 1) ∧
  Scenario.validate "mock_init_data" ≠ Return JNull.
Proof.
  split; [vm_compute; reflexivity|]. split; [reflexivity|].
  split; [reflexivity|]. discriminate.
Qed.

(** The bypass does not depend on the library functions, the token or the
    clock. *)
Lemma validate_init_data_mock parse_qsl py_int hmac_sha256 json_loads token now :
  validate_init_data parse_qsl py_int hmac_sha256 json_loads token now
    "mock_init_data" = Return (JInt 1).
Proof. reflexivity. Qed.

(** Without a token the validator raises, whatever the payload. *)
Lemma validate_init_data_no_token parse_qsl py_int hmac_sha256 json_loads now
  init_data :
  init_data ≠ "mock_init_data" →
  validate_init_data parse_qsl py_int hmac_sha256 json_loads None now init_data
  = Raise ValueError.
Proof.
  intros H. unfold validate_init_data. rewrite (string_eqb_false _ _ H).
  reflexivity.
Qed.

(** Three payloads on which the validator raises instead of returning: an
    [auth_date] that is not an integer literal, an [auth_date] of 401
    digits, and a [hash] with a non-ASCII character. *)
Example validate_init_data_bad_auth_date :
  Scenario.validate "auth_date=yesterday" = Raise ValueError.
Proof. vm_compute. reflexivity. Qed.

Example validate_init_data_huge_auth_date :
  Scenario.validate ("auth_date=" +:+ Scenario.huge_auth_date)
  = Raise OverflowError.
Proof. vm_compute. reflexivity. Qed.

Example validate_init_data_non_ascii_hash :
  Scenario.validate "auth_date=123456&hash=%C3%A9" = Raise TypeError.
Proof. vm_compute. reflexivity. Qed.

(** * Properties of the map builder and the raid engine *)

Import Raid.

(** ** Guards of the handlers *)

Lemma authenticated_caller uid : uid ≠ 0 → authenticated (Some uid) = Some uid.
Proof. intros H. simpl. destruct (Z.eqb_spec uid 0); [contradiction|reflexivity]. Qed.

Lemma select_session_owned sid uid s r :
  raid_sessions s !! sid = Some r → player_id r = uid →
  select_session sid uid s = Some r.
Proof. intros Hr Hp. unfold select_session. rewrite Hr, Hp, Z.eqb_refl. reflexivity. Qed.

Lemma select_session_Some sid uid s r :
  select_session sid uid s = Some r →
  raid_sessions s !! sid = Some r ∧ player_id r = uid.
Proof.
  unfold select_session. destruct (raid_sessions s !! sid) as [r0|]; [|discriminate].
  destruct (Z.eqb_spec (player_id r0) uid); [|discriminate].
  intros [= <-]. split; [reflexivity|assumption].
Qed.

Lemma select_own_map_owned mid uid s m :
  maps s !! mid = Some m → creator_id m = uid →
  select_own_map mid uid s = Some m.
Proof. intros Hm Hc. unfold select_own_map. rewrite Hm, Hc, Z.eqb_refl. reflexivity. Qed.

Lemma select_own_map_Some mid uid s m :
  select_own_map mid uid s = Some m →
  maps s !! mid = Some m ∧ creator_id m = uid.
Proof.
  unfold select_own_map. destruct (maps s !! mid) as [m0|]; [|discriminate].
  destruct (Z.eqb_spec (creator_id m0) uid); [|discriminate].
  intros [= <-]. split; [reflexivity|assumption].
Qed.

Lemma py_in_elem_of x l : py_in x l = true ↔ x ∈ l.
Proof.
  unfold py_in. rewrite existsb_exists. split.
  - intros (y & Hy & Heq). apply Z.eqb_eq in Heq. subst y.
    apply list_elem_of_In. exact Hy.
  - intros Hin. exists x. split; [apply list_elem_of_In, Hin|apply Z.eqb_refl].
Qed.

Lemma py_in_false x l : py_in x l = false ↔ x ∉ l.
Proof.
  rewrite <- py_in_elem_of. destruct (py_in x l); split; congruence.
Qed.

Lemma cell_in_range cell : 0 ≤ cell < 48 → (cell <? 0) || (cell >=? 48) = false.
Proof.
  intros H. apply orb_false_iff. split; [apply Z.ltb_ge; lia|].
  rewrite Z.geb_leb. apply Z.leb_gt. lia.
Qed.

Lemma cell_range_of_guard cell :
  (cell <? 0) || (cell >=? 48) = false → 0 ≤ cell < 48.
Proof.
  intros H. apply orb_false_iff in H as [H1 H2].
  apply Z.ltb_ge in H1. rewrite Z.geb_leb in H2. apply Z.leb_gt in H2. lia.
Qed.

(** ** Map builder *)

Lemma count_code_count_occ code grid :
  count_code code grid = Z.of_nat (count_occ Z.eq_dec grid code).
Proof.
  induction grid as [|x rest IH]; simpl; [reflexivity|].
  rewrite IH. destruct (Z.eqb_spec x code) as [->|Hne].
  - destruct (Z.eq_dec code code); [lia|congruence].
  - destruct (Z.eq_dec x code); [congruence|lia].
Qed.

Lemma positions_from_length i code grid :
  Z.of_nat (length (positions_from i code grid)) = count_code code grid.
Proof.
  revert i. induction grid as [|x rest IH]; intros i; simpl; [reflexivity|].
  destruct (x =? code); simpl; rewrite <- (IH (i + 1)); lia.
Qed.

Lemma elem_of_positions_from i code grid p :
  p ∈ positions_from i code grid ↔
  ∃ n : nat, p = i + Z.of_nat n ∧ grid !! n = Some code.
Proof.
  revert i. induction grid as [|x rest IH]; intros i; simpl.
  - split; [intros H; inversion H|intros (n & _ & H); discriminate].
  - destruct (Z.eqb_spec x code) as [->|Hne].
    + rewrite elem_of_cons, IH. split.
      * intros [->|(n & -> & Hn)].
        -- exists 0%nat. split; [lia|reflexivity].
        -- exists (S n). split; [lia|exact Hn].
      * intros ([|n] & -> & Hn).
        -- left. lia.
        -- right. exists n. split; [lia|exact Hn].
    + rewrite IH. split.
      * intros (n & -> & Hn). exists (S n). split; [lia|exact Hn].
      * intros ([|n] & -> & Hn).
        -- simpl in Hn. congruence.
        -- exists n. split; [lia|exact Hn].
Qed.

Lemma positions_from_NoDup i code grid : NoDup (positions_from i code grid).
Proof.
  revert i. induction grid as [|x rest IH]; intros i; simpl.
  - constructor.
  - destruct (x =? code); [|apply IH].
    constructor; [|apply IH].
    rewrite elem_of_positions_from. intros (n & Hn & _). lia.
Qed.

Lemma positions_two code grid :
  count_code code grid = 2 →
  ∃ p0 p1, positions code grid = [p0; p1] ∧ p0 ≠ p1.
Proof.
  intros Hc. unfold positions.
  pose proof (positions_from_length 0 code grid) as Hl.
  pose proof (positions_from_NoDup 0 code grid) as Hnd.
  destruct (positions_from 0 code grid) as [|p0 [|p1 [|p2 l]]];
    simpl in Hl; try lia.
  exists p0, p1. split; [reflexivity|].
  inversion Hnd as [|? ? Hnin _]; subst. intros ->. apply Hnin. left.
Qed.

Lemma chest_adjacent_iff grid p0 p1 :
  positions 4 grid = [p0; p1] →
  Z.abs (p0 - p1) = 1 ↔ ∃ i : nat, grid !! i = Some 4 ∧ grid !! S i = Some 4.
Proof.
  intros Hp.
  assert (Hin : ∀ p, p ∈ [p0; p1] ↔
            ∃ n : nat, p = 0 + Z.of_nat n ∧ grid !! n = Some 4).
  { intros p. rewrite <- Hp. apply elem_of_positions_from. }
  assert (H0 : p0 ∈ [p0; p1]) by (left).
  assert (H1 : p1 ∈ [p0; p1]) by (right; left).
  apply Hin in H0 as (n0 & E0 & G0). apply Hin in H1 as (n1 & E1 & G1).
  split.
  - intros Habs.
    destruct (Z.le_gt_cases p0 p1).
    + exists n0. split; [exact G0|]. replace (S n0) with n1 by lia. exact G1.
    + exists n1. split; [exact G1|]. replace (S n1) with n0 by lia. exact G0.
  - intros (i & Gi & Gsi).
    assert (Hi : Z.of_nat i ∈ [p0; p1]).
    { apply Hin. exists i. split; [lia|exact Gi]. }
    assert (Hsi : Z.of_nat (S i) ∈ [p0; p1]).
    { apply Hin. exists (S i). split; [lia|exact Gsi]. }
    rewrite !elem_of_cons in Hi, Hsi.
    rewrite elem_of_nil in Hi, Hsi.
    lia.
Qed.

Lemma maps_create_valid uid grid s :
  valid_grid grid →
  maps_create (Some uid) (Some grid) s =
    match authenticated (Some uid) with
    | None => (unauthorized, s)
    | Some uid =>
      match users s !! uid with
      | None => ((error "No credits", 400), s)
      | Some credits_row =>
        if builder_credits credits_row <=? 0 then
          ((error "No credits", 400), s)
        else (ok success, published uid grid s)
      end
    end.
Proof.
  intros (Hlen & H2 & H3 & H4 & Hadj). unfold maps_create.
  destruct (authenticated (Some uid)) as [caller|]; [|reflexivity].
  rewrite !count_code_count_occ, Hlen, H2, H3, H4. simpl.
  destruct (positions_two 4 grid) as (p0 & p1 & Hp & _).
  { rewrite count_code_count_occ, H4. reflexivity. }
  rewrite Hp.
  apply (chest_adjacent_iff grid p0 p1 Hp) in Hadj. rewrite Hadj. simpl.
  reflexivity.
Qed.

Lemma maps_create_invalid auth grid s :
  ¬ valid_grid grid →
  is_Some (authenticated auth) →
  ∃ msg, maps_create auth (Some grid) s = ((error msg, 400), s).
Proof.
  intros Hinv [caller Hcaller]. unfold maps_create. rewrite Hcaller.
  rewrite !count_code_count_occ.
  destruct (Z.eqb_spec (Z.of_nat (length grid)) 48) as [Hlen|Hlen]; simpl;
    [|eauto].
  destruct (Z.eqb_spec (Z.of_nat (count_occ Z.eq_dec grid 2)) 4) as [H2|H2];
    simpl; [|eauto].
  destruct (Z.eqb_spec (Z.of_nat (count_occ Z.eq_dec grid 3)) 2) as [H3|H3];
    simpl; [|eauto].
  destruct (Z.eqb_spec (Z.of_nat (count_occ Z.eq_dec grid 4)) 2) as [H4|H4];
    simpl; [|eauto].
  destruct (positions_two 4 grid) as (p0 & p1 & Hp & _).
  { rewrite count_code_count_occ. exact H4. }
  rewrite Hp.
  destruct (Z.eqb_spec (Z.abs (p0 - p1)) 1) as [Habs|Habs]; simpl; [|eauto].
  exfalso. apply Hinv. unfold valid_grid.
  apply (chest_adjacent_iff grid p0 p1 Hp) in Habs.
  repeat split; try lia. exact Habs.
Qed.

Lemma authenticated_Some auth uid :
  authenticated auth = Some uid → auth = Some uid ∧ uid ≠ 0.
Proof.
  destruct auth as [a|]; [|discriminate]. simpl.
  destruct (Z.eqb_spec a 0); [discriminate|]. intros [= <-]. tauto.
Qed.

Lemma valid_grid_dec grid : valid_grid grid ∨ ¬ valid_grid grid.
Proof.
  unfold valid_grid.
  destruct (decide (length grid = 48%nat)) as [Hl|Hl]; [|tauto].
  destruct (decide (count_occ Z.eq_dec grid 2 = 4%nat)) as [H2|H2]; [|tauto].
  destruct (decide (count_occ Z.eq_dec grid 3 = 2%nat)) as [H3|H3]; [|tauto].
  destruct (decide (count_occ Z.eq_dec grid 4 = 2%nat)) as [H4|H4]; [|tauto].
  destruct (positions_two 4 grid) as (p0 & p1 & Hp & _).
  { rewrite count_code_count_occ, H4. reflexivity. }
  pose proof (chest_adjacent_iff grid p0 p1 Hp) as Hadj.
  destruct (decide (Z.abs (p0 - p1) = 1)); tauto.
Qed.


Lemma walled_grid_valid : valid_grid Scenario.walled_grid.
Proof.
  unfold valid_grid. repeat (split; [reflexivity|]).
  exists 22%nat. split; reflexivity.
Qed.


(** C9, counterexample. A grid with the required traps, pits and chest but
    no wall at all is accepted and stored. *)
Lemma maps_create_accepts_no_walls :
  let out :=
    maps_create (Some 5) (Some Scenario.no_walls_grid) Scenario.fresh_db in
  length Scenario.no_walls_grid = 48%nat ∧
  count_occ Z.eq_dec Scenario.no_walls_grid 1 = 0%nat ∧
  out.1 = ok success ∧
  grid_json <$> maps out.2 !! 1 = Some (Parsed Scenario.no_walls_grid).
Proof. vm_compute. repeat split; reflexivity. Qed.

(** C9 (amended). Every grid [maps_create] accepts has 48 cells, exactly 4
    traps, exactly 2 pits and exactly 2 chest halves at adjacent indices, and
    is stored under the caller's id with an empty dug list, active and not
    archived; the number of wall cells is not constrained. *)
Theorem maps_create_accepts_valid_grids (auth : option Z) (grid : list Z)
  (s : db) :
  let out := maps_create auth (Some grid) s in
  out.1 = ok success →
  valid_grid grid ∧
  ∃ uid, authenticated auth = Some uid ∧
         maps out.2 !! maps_seq s =
           Some {| creator_id := uid; grid_json := Parsed grid;
                   dug_json := Parsed []; difficulty := 1%Q; active := true;
                   is_archived := false |}.
Proof.
  intros out Hok. subst out.
  destruct (authenticated auth) as [uid|] eqn:Hauth.
  2:{ unfold maps_create in Hok. rewrite Hauth in Hok. discriminate. }
  destruct (valid_grid_dec grid) as [Hvalid|Hinv].
  2:{ destruct (maps_create_invalid auth grid s Hinv) as (msg & Hmsg).
      { rewrite Hauth. eauto. }
      rewrite Hmsg in Hok. discriminate. }
  split; [exact Hvalid|]. exists uid. split; [reflexivity|].
  apply authenticated_Some in Hauth as [-> Hne].
  rewrite (maps_create_valid uid grid s Hvalid) in *.
  rewrite (authenticated_caller uid Hne) in *.
  destruct (users s !! uid) as [u|]; [|discriminate].
  destruct (builder_credits u <=? 0); [discriminate|].
  simpl. apply lookup_insert_eq.
Qed.

Lemma maps_create_accepts_valid_grids_witness :
  valid_grid Scenario.walled_grid ∧
  ∃ uid, authenticated (Some 5) = Some uid ∧
         maps Scenario.published_db !! 1 =
           Some {| creator_id := uid; grid_json := Parsed Scenario.walled_grid;
                   dug_json := Parsed []; difficulty := 1%Q; active := true;
                   is_archived := false |}.
Proof.
  apply (maps_create_accepts_valid_grids (Some 5) Scenario.walled_grid
           Scenario.fresh_db).
  vm_compute. reflexivity.
Defined.

(** ** Digging *)

(** [raid_dig] commits nothing, whatever it is asked. *)
Lemma raid_dig_store now auth sid cell s : (raid_dig now auth sid cell s).2 = s.
Proof. unfold raid_dig, fromisoformat. repeat case_match; reflexivity. Qed.

(** A session that is found is read with [fromisoformat], which raises. *)
Lemma raid_dig_found now uid sid cell s r :
  uid ≠ 0 →
  raid_sessions s !! sid = Some r → player_id r = uid → 0 ≤ cell < 48 →
  raid_dig now (Some uid) (Some sid) (Some cell) s = (internal_error, s).
Proof.
  intros Huid Hr Hp Hcell. unfold raid_dig.
  rewrite (authenticated_caller uid Huid), (cell_in_range cell Hcell).
  rewrite (select_session_owned sid uid s r Hr Hp). reflexivity.
Qed.

(** C3, at the failing input. Session 1 of user 7 on map 1 has not expired
    at time 2000, its history is empty and cell 16 of the map is a trap.
    The dig is answered with status 500 and nothing is written: the session
    stays active and the dug list of the map stays empty. *)
Theorem dig_trap_raises :
  let s := Scenario.raiding_db in
  let out := raid_dig 2000 (Some 7) (Some 1) (Some 16) s in
  raid_sessions s !! 1 = Some Scenario.session_1 ∧
  2000 < expires_at Scenario.session_1 ∧
  dug_history Scenario.session_1 = Parsed [] ∧
  grid_json <$> maps s !! 1 = Some (Parsed Scenario.walled_grid) ∧
  Scenario.walled_grid !! 16%nat = Some 2 ∧
  out.1 = (error "Internal server error", 500) ∧
  out.2 = s ∧
  status <$> raid_sessions out.2 !! 1 = Some active_status ∧
  dug_json <$> maps out.2 !! 1 = Some (Parsed []).
Proof. vm_compute. repeat split; reflexivity. Qed.

(** C4, at the failing input. Session 1 expires at time 120001000. A dig at
    time 500000000 is answered with status 500, not with timeout, and the
    session stays active; so is a second dig. *)
Theorem dig_after_expiry_raises :
  let s := Scenario.raiding_db in
  let first := raid_dig 500000000 (Some 7) (Some 1) (Some 24) s in
  let second := raid_dig 600000000 (Some 7) (Some 1) (Some 24) first.2 in
  raid_sessions s !! 1 = Some Scenario.session_1 ∧
  expires_at Scenario.session_1 = 120001000 ∧
  first.1 = (error "Internal server error", 500) ∧
  status <$> raid_sessions first.2 !! 1 = Some active_status ∧
  second.1 = (error "Internal server error", 500) ∧
  second.2 = s.
Proof. vm_compute. repeat split; reflexivity. Qed.

(** ** Leaving *)









(** ** Starting a raid *)

(** Past its checks [raid_start] reads the selected row by position, which
    raises: whatever it is asked, its tables are those it found, the map
    sequence is untouched and the session sequence has handed out one id at
    most. *)
Lemma raid_start_store now auth mid s :
  let s' := (raid_start now auth mid s).2 in
  same_tables s s' ∧ maps_seq s' = maps_seq s ∧
  raid_sessions_seq s ≤ raid_sessions_seq s' ≤ raid_sessions_seq s + 1.
Proof.
  unfold raid_start, insert_raid_session, getitem, same_tables.
  repeat case_match; simpl; repeat split; lia.
Qed.

(** ** What a run may change in a map *)

Lemma map_evolves_refl m : map_evolves m m.
Proof. repeat split; tauto. Qed.

Lemma map_evolves_trans m1 m2 m3 :
  map_evolves m1 m2 → map_evolves m2 m3 → map_evolves m1 m3.
Proof.
  intros (Hc1 & Hg1 & Hd1 & Ha1) (Hc2 & Hg2 & Hd2 & Ha2).
  repeat split; try congruence; tauto.
Qed.

Lemma map_evolves_inactive m : map_evolves m (set_active false m).
Proof. repeat split; simpl; tauto. Qed.

Ltac same_map m := exists m; split; [assumption|apply map_evolves_refl].

Lemma handle_map_evolves rq s mid m :
  sequences_ahead s → maps s !! mid = Some m →
  ∃ m', maps (handle rq s).2 !! mid = Some m' ∧ map_evolves m m'.
Proof.
  intros [Hseq _] Hm.
  destruct rq as [auth grid|now auth k|now auth sid cell|now auth sid|now auth k];
    simpl.
  - unfold maps_create. repeat case_match; simpl; try same_map m.
    exists m. split; [|apply map_evolves_refl].
    rewrite lookup_insert_ne; [exact Hm|]. specialize (Hseq _ _ Hm). lia.
  - destruct (raid_start_store now auth k s) as ((_ & -> & _) & _).
    same_map m.
  - rewrite raid_dig_store. same_map m.
  - unfold raid_leave, add_to_balance.
    repeat case_match; simplify_eq; simpl; same_map m.
  - unfold my_tombs_claim. repeat case_match; simpl; try same_map m.
    match goal with
    | |- ∃ m', alter _ ?k _ !! _ = _ ∧ _ =>
        destruct (decide (k = mid)) as [Heq|Hne]
    end.
    + rewrite Heq, lookup_alter_eq, Hm. simpl. eexists. split; [reflexivity|].
      apply map_evolves_inactive.
    + rewrite lookup_alter_ne by exact Hne. same_map m.
Qed.

Lemma handle_sequences_ahead rq s :
  sequences_ahead s → sequences_ahead (handle rq s).2.
Proof.
  intros [Hm Hr].
  assert (Hsame : sequences_ahead s) by (split; assumption).
  destruct rq as [auth grid|now auth k|now auth sid cell|now auth sid|now auth k];
    simpl.
  - unfold maps_create. repeat case_match; simpl; try exact Hsame.
    split; simpl; [|exact Hr].
    intros j m'. rewrite lookup_insert. case_decide.
    + intros _. lia.
    + intros Hj. specialize (Hm _ _ Hj). lia.
  - destruct (raid_start_store now auth k s)
      as ((_ & Hmaps & Hsess & _) & Hms & Hss).
    split.
    + intros j x. rewrite Hmaps, Hms. apply Hm.
    + intros j x. rewrite Hsess. intros Hj. specialize (Hr _ _ Hj). lia.
  - rewrite raid_dig_store. exact Hsame.
  - unfold raid_leave, add_to_balance.
    repeat case_match; simplify_eq; simpl; try exact Hsame.
    all: split; simpl; [exact Hm|].
    all: intros j x Hj.
    all: apply lookup_alter_Some in Hj as [(_ & y & Hy & _)|[_ Hy]]; eauto.
  - unfold my_tombs_claim. repeat case_match; simpl; try exact Hsame.
    split; simpl; [|exact Hr].
    intros j x Hj.
    apply lookup_alter_Some in Hj as [(_ & y & Hy & _)|[_ Hy]]; eauto.
Qed.

Lemma serve_cons rq rqs s :
  (serve (rq :: rqs) s).2 = (serve rqs (handle rq s).2).2.
Proof.
  simpl. destruct (handle rq s) as [r s1]. simpl.
  destruct (serve rqs s1) as [rs s2]. reflexivity.
Qed.

Lemma serve_sequences_ahead rqs s :
  sequences_ahead s → sequences_ahead (serve rqs s).2.
Proof.
  revert s. induction rqs as [|rq rqs IH]; intros s Hs; [exact Hs|].
  rewrite serve_cons. apply IH, handle_sequences_ahead, Hs.
Qed.

Lemma serve_map_evolves rqs s mid m :
  sequences_ahead s → maps s !! mid = Some m →
  ∃ m', maps (serve rqs s).2 !! mid = Some m' ∧ map_evolves m m'.
Proof.
  revert s m. induction rqs as [|rq rqs IH]; intros s m Hs Hm.
  - exists m. split; [exact Hm|apply map_evolves_refl].
  - rewrite serve_cons.
    destruct (handle_map_evolves rq s mid m Hs Hm) as (m1 & Hm1 & He1).
    destruct (IH _ m1 (handle_sequences_ahead rq s Hs) Hm1) as (m2 & Hm2 & He2).
    exists m2. split; [exact Hm2|]. eapply map_evolves_trans; eassumption.
Qed.


(** ** Claiming a tomb *)

Lemma safe_type_spec x : py_in x [0; 4] = true ↔ x = 0 ∨ x = 4.
Proof.
  rewrite py_in_elem_of, !elem_of_cons, elem_of_nil. tauto.
Qed.

(** [safe_cells_from] counts a duplicate-free list of the remaining safe
    cells. *)
Lemma safe_cells_from_counts k grid dug :
  ∃ cells : list Z,
    NoDup cells ∧
    (∀ j, j ∈ cells ↔
          ∃ n : nat, j = k + Z.of_nat n ∧
                     (grid !! n = Some 0 ∨ grid !! n = Some 4) ∧ j ∉ dug) ∧
    safe_cells_from k grid dug = Z.of_nat (length cells).
Proof.
  revert k. induction grid as [|x grid IH]; intros k.
  - exists []. split; [constructor|]. split; [|reflexivity].
    intros j. rewrite elem_of_nil. split; [tauto|].
    intros (n & _ & [H|H] & _); discriminate.
  - change (safe_cells_from k (x :: grid) dug)
      with ((if py_in x [0; 4] && negb (py_in k dug) then 1 else 0)
            + safe_cells_from (k + 1) grid dug).
    destruct (IH (k + 1)) as (cells & Hnd & Hin & Hlen).
    assert (Hshift : ∀ j, j ∈ cells → k < j).
    { intros j Hj. apply Hin in Hj as (n & -> & _). lia. }
    destruct (py_in x [0; 4] && negb (py_in k dug)) eqn:Hx.
    + apply andb_true_iff in Hx as [Ht Hd].
      apply safe_type_spec in Ht. apply negb_true_iff, py_in_false in Hd.
      exists (k :: cells). split; [|split].
      * constructor; [|exact Hnd]. intros Hk. apply Hshift in Hk. lia.
      * intros j. rewrite elem_of_cons, Hin. split.
        -- intros [->|(n & -> & Hn & Hj)].
           ++ exists 0%nat. simpl. split; [lia|]. split; [|exact Hd].
              destruct Ht as [->| ->]; tauto.
           ++ exists (S n). simpl. split; [lia|]. split; [exact Hn|].
              replace (k + Z.of_nat (S n)) with (k + 1 + Z.of_nat n) by lia.
              exact Hj.
        -- intros ([|n] & -> & Hn & Hj).
           ++ left. lia.
           ++ right. exists n. simpl in Hn. split; [lia|]. split; [exact Hn|].
              replace (k + 1 + Z.of_nat n) with (k + Z.of_nat (S n)) by lia.
              exact Hj.
      * rewrite Hlen. simpl length. lia.
    + exists cells. split; [exact Hnd|]. split; [|rewrite Hlen; lia].
      intros j. rewrite Hin. split.
      * intros (n & -> & Hn & Hj). exists (S n). simpl. split; [lia|].
        split; [exact Hn|].
        replace (k + Z.of_nat (S n)) with (k + 1 + Z.of_nat n) by lia. exact Hj.
      * intros ([|n] & -> & Hn & Hj).
        -- exfalso. simpl in Hn. replace (k + Z.of_nat 0) with k in Hj by lia.
           apply andb_false_iff in Hx as [Hx|Hx].
           ++ assert (py_in x [0; 4] = true); [|congruence].
              apply safe_type_spec. destruct Hn as [[= ->]|[= ->]]; tauto.
           ++ apply negb_false_iff, py_in_elem_of in Hx. contradiction.
        -- exists n. simpl in Hn. split; [lia|]. split; [exact Hn|].
           replace (k + 1 + Z.of_nat n) with (k + Z.of_nat (S n)) by lia.
           exact Hj.
Qed.

(** The count [my_tombs_claim] compares with 12 is the number of remaining
    safe cells. *)
Lemma safe_cells_remaining grid dug cells :
  remaining_safe_cells grid dug cells →
  safe_cells grid dug = Z.of_nat (length cells).
Proof.
  intros [Hnd Hin]. unfold safe_cells.
  destruct (safe_cells_from_counts 0 grid dug) as (cs & Hnd0 & Hin0 & ->).
  f_equal. rewrite <- (length_fmap Z.of_nat cells).
  apply Permutation_length, NoDup_Permutation.
  - exact Hnd0.
  - apply NoDup_fmap; [intros a b; apply Nat2Z.inj|exact Hnd].
  - intros j. rewrite Hin0, list_elem_of_fmap. split.
    + intros (n & -> & Hn & Hj). exists n. split; [lia|].
      apply Hin. split; [exact Hn|]. simpl in Hj. exact Hj.
    + intros (n & -> & Hn). apply Hin in Hn as [Hn Hj].
      exists n. split; [lia|]. split; [exact Hn|exact Hj].
Qed.

Lemma one_is_real : Float.is_real 1.
Proof.
  split; [vm_compute; reflexivity|]. split; [vm_compute; reflexivity|].
  vm_compute. discriminate.
Qed.

Lemma my_tombs_claim_owned now uid mid s m grid dug :
  uid ≠ 0 → maps s !! mid = Some m → creator_id m = uid →
  grid_json m = Parsed grid → dug_json m = Parsed dug →
  my_tombs_claim now (Some uid) (Some mid) s
  = if safe_cells grid dug >=? 12 then ((error "Not ready to claim", 400), s)
    else (ok (claimed claim_reward),
          insert_transaction now uid claim_reward claim
            (update_users
               (alter (set_balance (fun b => Float.real_sum b claim_reward))
                  uid)
               (update_maps (alter (set_active false) mid) s))).
Proof.
  intros Huid Hm Hc Hg Hd. unfold my_tombs_claim.
  rewrite (authenticated_caller uid Huid).
  rewrite (select_own_map_owned mid uid s m Hm Hc), Hg, Hd. reflexivity.
Qed.

(** C6 (amended). For a map of the caller, [my_tombs_claim] succeeds exactly
    when fewer than 12 safe cells (type 0 or 4, not in the dug list)
    remain. A successful claim sets the map inactive, after which no
    request makes it active again; it sets the owner's balance to the sum
    of the balance and the fixed reward 1.0 as the database rounds it to
    REAL, which is the exact sum when that is a REAL value; and it
    appends one ledger row of type [claim] with the amount 1.0. The rest of
    the store stays. The claim can be repeated: on the inactive map it
    succeeds again, adds the reward again and appends another row. With 12
    or more safe cells left the claim is refused and the store is
    unchanged. *)
Theorem claim_tomb_threshold (now uid mid : Z) (s : db) (m : map_row)
  (grid dug : list Z) (cells : list nat) (u : user_row) :
  uid ≠ 0 →
  sequences_ahead s →
  maps s !! mid = Some m → creator_id m = uid →
  grid_json m = Parsed grid → dug_json m = Parsed dug →
  remaining_safe_cells grid dug cells →
  users s !! uid = Some u →
  let out := my_tombs_claim now (Some uid) (Some mid) s in
  (out.1 = (claimed 1, 200) ↔ (length cells < 12)%nat) ∧
  ((length cells < 12)%nat →
   (∃ m', maps out.2 !! mid = Some m' ∧ active m' = false ∧
          creator_id m' = creator_id m ∧ grid_json m' = grid_json m ∧
          dug_json m' = dug_json m ∧ difficulty m' = difficulty m ∧
          is_archived m' = is_archived m) ∧
   (∀ k, k ≠ mid → maps out.2 !! k = maps s !! k) ∧
   (∃ u', users out.2 !! uid = Some u' ∧
          balance u' = Float.real_sum (balance u) 1 ∧
          username u' = username u ∧
          builder_credits u' = builder_credits u) ∧
   (Float.is_real (balance u) →
    Float.round_bits 24 (Float.real_units (balance u) + Float.real_units 1)
    = Float.real_units (balance u) + Float.real_units 1 →
    (Float.real_sum (balance u) 1 == balance u + 1)%Q) ∧
   (∀ k, k ≠ uid → users out.2 !! k = users s !! k) ∧
   (∃ row, transactions out.2 = transactions s ++ [row] ∧
           user_id row = uid ∧ amount row = 1%Q ∧ type row = claim ∧
           booked_at row = now) ∧
   raid_sessions out.2 = raid_sessions s ∧
   (∀ rqs, ∃ m', maps (serve rqs out.2).2 !! mid = Some m' ∧
                 active m' = false) ∧
   (∀ now',
      let again := my_tombs_claim now' (Some uid) (Some mid) out.2 in
      again.1 = (claimed 1, 200) ∧
      (∃ m', maps again.2 !! mid = Some m' ∧ active m' = false) ∧
      (∃ u', users again.2 !! uid = Some u' ∧
             balance u'
             = Float.real_sum (Float.real_sum (balance u) 1) 1) ∧
      (∃ row row',
          transactions again.2 = transactions s ++ [row; row'] ∧
          user_id row' = uid ∧ amount row' = 1%Q ∧ type row' = claim ∧
          booked_at row' = now'))) ∧
  ((12 ≤ length cells)%nat →
   out.1 = (error "Not ready to claim", 400) ∧ out.2 = s).
Proof.
  intros Huid Hseq Hm Hc Hg Hd Hcells Hu out.
  pose proof (safe_cells_remaining grid dug cells Hcells) as Hcount.
  assert (Hahead : sequences_ahead out.2).
  { apply (handle_sequences_ahead (POST_my_tombs_claim now (Some uid) (Some mid))).
    exact Hseq. }
  subst out. revert Hahead.
  rewrite (my_tombs_claim_owned now uid mid s m grid dug Huid Hm Hc Hg Hd).
  rewrite Hcount, Z.geb_leb.
  destruct (Z.leb_spec 12 (Z.of_nat (length cells))) as [Hge|Hlt]; simpl;
    intros Hahead.
  - split; [split; [discriminate|lia]|]. split; [lia|]. intros _.
    split; reflexivity.
  - split; [split; [lia|reflexivity]|]. split; [|lia]. intros _.
    assert (Hm' : alter (set_active false) mid (maps s) !! mid
                  = Some (set_active false m)).
    { rewrite lookup_alter_eq, Hm. reflexivity. }
    split.
    { exists (set_active false m). split; [exact Hm'|]. repeat split. }
    split.
    { intros k Hk. rewrite lookup_alter_ne by congruence. reflexivity. }
    split.
    { eexists. rewrite lookup_alter_eq, Hu. simpl. repeat split. }
    split.
    { intros Hrb Hfix. apply real_sum_exact; [exact Hrb|exact one_is_real|].
      exact Hfix. }
    split.
    { intros k Hk. rewrite lookup_alter_ne by congruence. reflexivity. }
    split.
    { eexists. split; [reflexivity|]. repeat split. }
    split; [reflexivity|]. split.
    { intros rqs.
      destruct (serve_map_evolves rqs _ mid (set_active false m) Hahead Hm')
        as (m' & Hlook & _ & _ & _ & Hact).
      exists m'. split; [exact Hlook|]. apply Hact. reflexivity. }
    intros now'.
    match goal with |- context [my_tombs_claim now' _ _ ?s1] =>
      rewrite (my_tombs_claim_owned now' uid mid s1 (set_active false m)
                 grid dug Huid Hm' Hc Hg Hd)
    end.
    rewrite Hcount, Z.geb_leb.
    destruct (Z.leb_spec 12 (Z.of_nat (length cells))); [lia|]. simpl.
    split; [reflexivity|]. split.
    { eexists. rewrite !lookup_alter_eq, Hm. simpl. split; reflexivity. }
    split.
    { eexists. rewrite !lookup_alter_eq, Hu. simpl. split; reflexivity. }
    do 2 eexists. rewrite <- app_assoc. split; [reflexivity|]. repeat split.
Qed.
Lemma opened_db_remaining :
  remaining_safe_cells Scenario.walled_grid Scenario.opened_cells
    [22%nat; 23%nat].
Proof.
  split.
  - apply NoDup_cons. split; [|apply NoDup_singleton].
    intros H. apply list_elem_of_singleton in H. discriminate H.
  - intros i. unfold remaining_safe. rewrite <- py_in_false. split.
    + intros Hi. apply elem_of_cons in Hi as [->|Hi];
        [|apply list_elem_of_singleton in Hi as ->];
        (split; [right; reflexivity|reflexivity]).
    + intros [Hg Hd].
      do 48 (destruct i as [|i];
             [first [ exfalso; vm_compute in Hd; discriminate Hd
                    | exfalso; vm_compute in Hg;
                      destruct Hg as [Hg|Hg]; discriminate Hg
                    | left
                    | right; left ]|]).
      destruct Hg as [Hg|Hg]; discriminate Hg.
Qed.

Lemma opened_db_sequences_ahead : sequences_ahead Scenario.opened_db.
Proof.
  split; intros k x; simpl.
  - rewrite lookup_insert. case_decide; [intros _; lia|].
    rewrite lookup_empty. discriminate.
  - rewrite lookup_empty. discriminate.
Qed.

Lemma claim_tomb_threshold_witness :
  (my_tombs_claim 9000 (Some 5) (Some 1) Scenario.opened_db).1
  = (claimed 1, 200).
Proof.
  refine (proj2 (proj1 (claim_tomb_threshold 9000 5 1 Scenario.opened_db
                          _ Scenario.walled_grid Scenario.opened_cells
                          [22%nat; 23%nat] (Scenario.player "user_5" 1 4)
                          _ opened_db_sequences_ahead _ _ _ _
                          opened_db_remaining _)) _).
  - lia.
  - vm_compute. reflexivity.
  - reflexivity.
  - reflexivity.
  - reflexivity.
  - vm_compute. reflexivity.
  - simpl. lia.
Defined.

(** C6, counterexample. User 5 holds 16777216 and claims the tomb of map 1,
    of which two safe cells remain: the claim succeeds and books the
    reward, and the balance is 16777216 as before, not 16777217. *)
Lemma claim_leaves_the_balance :
  let s := Scenario.wealthy_db in
  let out := my_tombs_claim 9000 (Some 5) (Some 1) s in
  balance <$> users s !! 5 = Some 16777216%Q ∧
  out.1 = (claimed 1, 200) ∧
  active <$> maps out.2 !! 1 = Some false ∧
  (amount <$> transactions out.2) = [1%Q] ∧
  balance <$> users out.2 !! 5 = Some 16777216%Q ∧
  ¬ (16777216 == 16777216 + 1)%Q.
Proof.
  vm_compute. repeat split; try reflexivity. discriminate.
Qed.

(** ** The shared dug list *)



Lemma fresh_db_sequences_ahead : sequences_ahead Scenario.fresh_db.
Proof. split; intros k x; simpl; rewrite lookup_empty; discriminate. Qed.



(** ** Raiders and creators *)

Lemma scout_excludes_own_maps uid s mid m :
  scout_candidates uid s !! mid = Some m → creator_id m ≠ uid.
Proof.
  unfold scout_candidates. intros H.
  apply map_lookup_filter_Some in H as [_ [_ Hc]]. exact Hc.
Qed.

(** A session that a request leaves in the store was there before, for the
    same player and map. *)
Lemma handle_sessions_back rq s sid r' :
  raid_sessions (handle rq s).2 !! sid = Some r' →
  ∃ r, raid_sessions s !! sid = Some r ∧ player_id r' = player_id r ∧
       map_id r' = map_id r.
Proof.
  destruct rq as [auth grid|now auth k|now auth sd cell|now auth sd|now auth k];
    simpl.
  - unfold maps_create. repeat case_match; simpl; eauto.
  - destruct (raid_start_store now auth k s) as ((_ & _ & -> & _) & _). eauto.
  - rewrite raid_dig_store. eauto.
  - unfold raid_leave, add_to_balance.
    repeat case_match; simplify_eq; simpl; eauto.
    all: intros Hj.
    all: apply lookup_alter_Some in Hj as [(_ & y & Hy & ->)|[_ Hy]]; eauto.
  - unfold my_tombs_claim. repeat case_match; simpl; eauto.
Qed.

Lemma handle_strangers rq s :
  sequences_ahead s → raiders_are_strangers s →
  raiders_are_strangers (handle rq s).2.
Proof.
  intros Hseq Hs sid r' Hr'.
  destruct (handle_sessions_back rq s sid r' Hr') as (r & Hr & Hp & Hmid).
  destruct (Hs sid r Hr) as (m & Hm & Hne).
  destruct (handle_map_evolves rq s (map_id r) m Hseq Hm)
    as (m' & Hm' & Hc & _).
  exists m'. rewrite Hmid, Hp, Hc. split; assumption.
Qed.

(** C8. No request creates a raid session: [raid_start] never commits one,
    whoever calls it for whatever map. So in a store in which every session
    is a raid of a map that another user created, every sequence of
    requests leaves such a store, in which every session was there from
    the start, for the same player and map. *)
Theorem start_creates_no_session (rqs : list request) (s : db) :
  sequences_ahead s → raiders_are_strangers s →
  let s' := (serve rqs s).2 in
  raiders_are_strangers s' ∧
  (∀ sid r', raid_sessions s' !! sid = Some r' →
      ∃ r, raid_sessions s !! sid = Some r ∧ player_id r' = player_id r ∧
           map_id r' = map_id r) ∧
  (∀ now auth mid,
      raid_sessions (raid_start now auth mid s').2 = raid_sessions s').
Proof.
  intros Hseq Hs s'. subst s'. split; [|split].
  - revert s Hseq Hs. induction rqs as [|rq rqs IH]; intros s Hseq Hs;
      [exact Hs|].
    rewrite serve_cons. apply IH.
    + apply handle_sequences_ahead, Hseq.
    + apply handle_strangers; assumption.
  - clear Hseq Hs. revert s. induction rqs as [|rq rqs IH]; intros s sid r' Hr'.
    + eauto.
    + rewrite serve_cons in Hr'.
      destruct (IH _ sid r' Hr') as (r1 & Hr1 & Hp1 & Hm1).
      destruct (handle_sessions_back rq s sid r1 Hr1) as (r & Hr & Hp & Hm).
      exists r. split; [exact Hr|]. split; congruence.
  - intros now auth mid.
    destruct (raid_start_store now auth mid (serve rqs s).2)
      as ((_ & _ & H & _) & _). exact H.
Qed.

Lemma published_db_sequences_ahead : sequences_ahead Scenario.published_db.
Proof.
  exact (handle_sequences_ahead
           (POST_maps_create (Some 5) (Some Scenario.walled_grid)) _
           fresh_db_sequences_ahead).
Qed.

Lemma raiding_db_sequences_ahead : sequences_ahead Scenario.raiding_db.
Proof.
  split; [exact (proj1 published_db_sequences_ahead)|].
  intros k r. simpl. rewrite lookup_insert. case_decide; [intros _; lia|].
  rewrite lookup_empty. discriminate.
Qed.

Lemma raiding_db_strangers : raiders_are_strangers Scenario.raiding_db.
Proof.
  intros sid r. simpl. rewrite lookup_insert. case_decide.
  - intros [= <-]. exists Scenario.map_1. split; [vm_compute; reflexivity|].
    simpl. lia.
  - rewrite lookup_empty. discriminate.
Qed.

Lemma start_creates_no_session_witness :
  raid_sessions
    (raid_start 1000 (Some 5) (Some 1)
       (serve [POST_raid_start 1000 (Some 7) (Some 1)]
          Scenario.raiding_db).2).2
  = raid_sessions
      (serve [POST_raid_start 1000 (Some 7) (Some 1)] Scenario.raiding_db).2.
Proof.
  exact (proj2 (proj2 (start_creates_no_session
                         [POST_raid_start 1000 (Some 7) (Some 1)]
                         Scenario.raiding_db raiding_db_sequences_ahead
                         raiding_db_strangers)) 1000 (Some 5) (Some 1)).
Defined.

(** * The example scenario *)

Lemma first_row_hands_out {A : Type} : hands_out (@first_row A).
Proof.
  intros rows. unfold first_row.
  destruct (map_to_list rows) as [|[k a] l] eqn:Hl; simpl.
  - apply map_to_list_empty_iff, Hl.
  - apply elem_of_map_to_list. rewrite Hl. left.
Qed.

Lemma fresh_db_solvent : solvent Scenario.fresh_db.
Proof.
  split.
  - intros uid u. simpl. rewrite !lookup_insert_Some, lookup_empty.
    intros [[_ <-]|[_ [[_ <-]|[_ [[_ <-]|[_ H]]]]]]; [..|discriminate];
      simpl; split; (discriminate || lia).
  - intros sid r. simpl. rewrite lookup_empty. discriminate.
Qed.

Lemma fortress_grid_valid : valid_grid Scenario.fortress_grid.
Proof.
  unfold valid_grid. repeat (split; [reflexivity|]).
  exists 6%nat. split; reflexivity.
Qed.

Lemma sample_walls_distinct : NoDup Scenario.sample_walls.
Proof.
  apply NoDup_fmap_2; [intros x y; lia|apply NoDup_seq].
Qed.

Lemma sample_walls_in_range : Forall (fun w => 0 ≤ w < 48) Scenario.sample_walls.
Proof.
  apply Forall_fmap, Forall_seq. intros j Hj. simpl. lia.
Qed.

(** * Further properties of the signature validator *)

Section dict_more.
Context {V : Type}.
Implicit Types d : list (string * V).

Lemma dict_set_fresh k v d : k ∉ map fst d → dict_set k v d = d ++ [(k, v)].
Proof.
  induction d as [|[k0 v0] d IH]; simpl; intros Hnin; [reflexivity|].
  rewrite not_elem_of_cons in Hnin. destruct Hnin as [Hne Hnin].
  rewrite (string_eqb_false k0 k) by congruence. rewrite (IH Hnin).
  reflexivity.
Qed.

Lemma dict_distinct_keys (pairs : list (string * V)) :
  NoDup (map fst pairs) → dict pairs = pairs.
Proof.
  unfold dict.
  assert (H : ∀ acc, NoDup (map fst (acc ++ pairs)) →
            fold_left (fun d kv => dict_set (fst kv) (snd kv) d) pairs acc
            = acc ++ pairs).
  { induction pairs as [|[k v] pairs IH]; intros acc Hnd; simpl.
    - rewrite app_nil_r. reflexivity.
    - rewrite dict_set_fresh.
      + rewrite IH; rewrite <- app_assoc; [reflexivity|exact Hnd].
      + rewrite map_app in Hnd. apply NoDup_app in Hnd as (_ & Hdis & _).
        intros Hin. apply (Hdis k Hin). left. }
  intros Hnd. apply (H []). exact Hnd.
Qed.

Lemma dict_get_Some k v d :
  NoDup (map fst d) → dict_get k d = Some v ↔ (k, v) ∈ d.
Proof.
  induction d as [|[k0 v0] d IH]; simpl; intros Hnd.
  - rewrite elem_of_nil. split; [discriminate|tauto].
  - apply NoDup_cons in Hnd as [Hnin Hnd]. rewrite elem_of_cons.
    destruct (String.eqb_spec k0 k) as [->|Hne].
    + split.
      * intros [= ->]. left. reflexivity.
      * intros [[= ->]|Hin]; [reflexivity|].
        exfalso. apply Hnin. apply list_elem_of_fmap. exists (k, v). tauto.
    + rewrite (IH Hnd). split; [tauto|].
      intros [[= -> ->]|Hin]; [contradiction|exact Hin].
Qed.

Lemma dict_get_perm k d1 d2 :
  NoDup (map fst d1) → d1 ≡ₚ d2 → dict_get k d1 = dict_get k d2.
Proof.
  intros Hnd Hp.
  assert (Hnd2 : NoDup (map fst d2)) by (rewrite <- Hp; exact Hnd).
  destruct (dict_get k d1) as [v|] eqn:H1.
  - apply (dict_get_Some k v d1 Hnd) in H1. rewrite Hp in H1.
    apply (dict_get_Some k v d2 Hnd2) in H1. congruence.
  - destruct (dict_get k d2) as [v|] eqn:H2; [|reflexivity].
    apply (dict_get_Some k v d2 Hnd2) in H2. rewrite <- Hp in H2.
    apply (dict_get_Some k v d1 Hnd) in H2. congruence.
Qed.

Lemma dict_pop_elem k d kv :
  NoDup (map fst d) → kv ∈ dict_pop k d ↔ kv ∈ d ∧ fst kv ≠ k.
Proof.
  induction d as [|[k0 v0] d IH]; simpl; intros Hnd.
  - rewrite elem_of_nil. tauto.
  - apply NoDup_cons in Hnd as [Hnin Hnd].
    destruct (String.eqb_spec k0 k) as [->|Hne].
    + rewrite elem_of_cons. split.
      * intros Hin. split; [right; exact Hin|].
        intros Heq. apply Hnin. apply list_elem_of_fmap. exists kv.
        split; [symmetry; exact Heq|exact Hin].
      * intros [[->|Hin] Hk]; [contradiction|exact Hin].
    + rewrite !elem_of_cons, (IH Hnd). split.
      * intros [->|[Hin Hk]]; [split; [left; reflexivity|exact Hne]|].
        split; [right; exact Hin|exact Hk].
      * intros [[->|Hin] Hk]; [left; reflexivity|right; tauto].
Qed.

Lemma NoDup_keys_NoDup d : NoDup (map fst d) → NoDup d.
Proof. apply NoDup_fmap_1. Qed.

Lemma dict_pop_perm k d1 d2 :
  NoDup (map fst d1) → d1 ≡ₚ d2 → dict_pop k d1 ≡ₚ dict_pop k d2.
Proof.
  intros Hnd Hp.
  assert (Hnd2 : NoDup (map fst d2)) by (rewrite <- Hp; exact Hnd).
  apply NoDup_Permutation.
  - apply NoDup_keys_NoDup, dict_pop_NoDup, Hnd.
  - apply NoDup_keys_NoDup, dict_pop_NoDup, Hnd2.
  - intros kv. rewrite (dict_pop_elem k d1 kv Hnd), (dict_pop_elem k d2 kv Hnd2).
    rewrite Hp. reflexivity.
Qed.
End dict_more.

Lemma sorted_perm_eq d1 d2 :
  NoDup (map fst d1) → d1 ≡ₚ d2 → sorted d1 = sorted d2.
Proof.
  intros Hnd Hp.
  assert (Hnd2 : NoDup (map fst d2)) by (rewrite <- Hp; exact Hnd).
  apply key_sorted_unique.
  - apply sorted_key_sorted, Hnd.
  - apply sorted_key_sorted, Hnd2.
  - rewrite !sorted_perm. exact Hp.
Qed.

Section validate_more.
Variable parse_qsl : string -> option (list (string * string)).
Variable py_int : string -> option Z.
Variable hmac_sha256 : list byte -> list byte -> list byte.
Variable json_loads : string -> option json.
Variable now : Q.

(** X1. [validate_init_data] does not depend on the order of the fields of
    the payload: two payloads, neither of them the bypass string, whose
    parsed fields have distinct keys and are a permutation of each other
    give the same result, be it an identity, None or an exception. *)
Theorem validate_init_data_ignores_field_order (token : option string)
  (p1 p2 : string) (l1 l2 : list (string * string)) :
  p1 ≠ "mock_init_data" → p2 ≠ "mock_init_data" →
  parse_qsl p1 = Some l1 → parse_qsl p2 = Some l2 →
  NoDup (map fst l1) → l1 ≡ₚ l2 →
  validate_init_data parse_qsl py_int hmac_sha256 json_loads token now p1 =
  validate_init_data parse_qsl py_int hmac_sha256 json_loads token now p2.
Proof.
  intros Hm1 Hm2 Hp1 Hp2 Hnd Hp.
  assert (Hnd2 : NoDup (map fst l2)) by (rewrite <- Hp; exact Hnd).
  unfold validate_init_data.
  rewrite (string_eqb_false _ _ Hm1), (string_eqb_false _ _ Hm2), Hp1, Hp2.
  rewrite (dict_distinct_keys l1 Hnd), (dict_distinct_keys l2 Hnd2).
  rewrite <- !(dict_get_perm _ l1 l2 Hnd Hp).
  rewrite <- (sorted_perm_eq _ _ (dict_pop_NoDup "hash" l1 Hnd)
                (dict_pop_perm "hash" l1 l2 Hnd Hp)).
  rewrite <- (dict_get_perm "user" _ _ (dict_pop_NoDup "hash" l1 Hnd)
                (dict_pop_perm "hash" l1 l2 Hnd Hp)).
  reflexivity.
Qed.

Variable token : string.
Hypothesis token_set : token ≠ EmptyString.
Hypothesis now_clock : Float.clock now.

Let validate : string -> outcome :=
  validate_init_data parse_qsl py_int hmac_sha256 json_loads (Some token) now.

(** X2. A correct signature is not enough. With a bot token configured and
    on a reading of the clock, a payload with an integer [auth_date] in the
    range of a float and less than 24 hours old, and a hash that signs its
    other fields, validates to None when it has no [user] field, when
    [user] is not JSON, when it is JSON but not an object, and when the
    object has no [id]. *)
Theorem validate_init_data_needs_user (init_data : string)
  (pairs : list (string * string)) (auth_date : string) (auth : Z)
  (received : string) :
  init_data ≠ "mock_init_data" →
  parse_qsl init_data = Some pairs →
  let data := dict pairs in
  dict_get "auth_date" data = Some auth_date →
  py_int auth_date = Some auth →
  Z.abs auth < Float.float_limit →
  (now - inject_Z auth < window)%Q →
  dict_get "hash" data = Some received →
  signs hmac_sha256 token received (dict_pop "hash" data) →
  (dict_get "user" data = None → validate init_data = Return JNull) ∧
  (∀ user, dict_get "user" data = Some user →
     (json_loads user = None → validate init_data = Return JNull) ∧
     (∀ v, json_loads user = Some v → (∀ d, v ≠ JDict d) →
           validate init_data = Return JNull) ∧
     (∀ d, json_loads user = Some (JDict d) → dict_get "id" d = None →
           validate init_data = Return JNull)).
Proof.
  intros Hmock Hparse data Ha Hi Hr Hfresh Hh Hs. subst data.
  assert (Hv : validate init_data =
    match dict_get "user" (dict pairs) with
    | Some user =>
        match json_loads user with
        | Some (JDict user_data) =>
            Return (default JNull (dict_get "id" user_data))
        | Some _ => Return JNull
        | None => Return JNull
        end
    | None => Return JNull
    end).
  { unfold validate, validate_init_data.
    rewrite (string_eqb_false _ _ Hmock), (string_eqb_false _ _ token_set).
    rewrite Hparse, Ha, Hi.
    destruct (freshness_test now auth now_clock Hr) as (elapsed & -> & Hw).
    destruct (Qle_bool window elapsed) eqn:Hold.
    { exfalso. eapply Qlt_not_le; [exact Hfresh|]. apply Hw. reflexivity. }
    rewrite Hh, (calculated_hash_signs hmac_sha256 token pairs received Hs).
    assert (Hasc : is_ascii received = true).
    { destruct Hs as (f & _ & _ & ->). apply hexdigest_ascii. }
    unfold compare_digest. rewrite Hasc. simpl. rewrite String.eqb_refl.
    rewrite dict_get_pop_ne by discriminate. reflexivity. }
  rewrite Hv. split.
  - intros ->. reflexivity.
  - intros user ->. repeat split.
    + intros ->. reflexivity.
    + intros v -> Hnd. destruct v; try reflexivity. exfalso. eapply Hnd.
      reflexivity.
    + intros d -> ->. reflexivity.
Qed.
End validate_more.

Lemma validate_init_data_ignores_field_order_witness :
  Scenario.validate Scenario.signed_payload
  = Scenario.validate Scenario.reordered_payload.
Proof.
  refine (validate_init_data_ignores_field_order Ref.parse_qsl Ref.py_int
            Sha256.hmac_sha256 Ref.json_loads Scenario.an_hour_later
            (Some Scenario.bot_token)
            Scenario.signed_payload Scenario.reordered_payload
            [("user", Scenario.user_json); ("auth_date", "123456");
             ("hash", Scenario.launch_hash)]
            [("hash", Scenario.launch_hash); ("auth_date", "123456");
             ("user", Scenario.user_json)] _ _ _ _ _ _).
  - vm_compute. discriminate.
  - vm_compute. discriminate.
  - vm_compute. reflexivity.
  - vm_compute. reflexivity.
  - simpl. repeat constructor; rewrite ?elem_of_cons, ?elem_of_nil;
      intros H; decompose [or] H; discriminate || assumption.
  - exact (Permutation_rev [("user", Scenario.user_json);
                            ("auth_date", "123456");
                            ("hash", Scenario.launch_hash)]).
Defined.

Lemma validate_init_data_needs_user_witness :
  Scenario.validate Scenario.anonymous_payload = Return JNull.
Proof.
  refine (proj1 (validate_init_data_needs_user Ref.parse_qsl Ref.py_int
                   Sha256.hmac_sha256 Ref.json_loads Scenario.an_hour_later
                   Scenario.bot_token _ _ Scenario.anonymous_payload
                   [("auth_date", "123456");
                    ("hash", Scenario.anonymous_hash)]
                   "123456" 123456 Scenario.anonymous_hash _ _ _ _ _ _ _ _)
            _).
  - discriminate.
  - exact an_hour_later_clock.
  - vm_compute. discriminate.
  - vm_compute. reflexivity.
  - vm_compute. reflexivity.
  - vm_compute. reflexivity.
  - vm_compute. reflexivity.
  - vm_compute. reflexivity.
  - vm_compute. reflexivity.
  - exists [("auth_date", "123456")]. split; [|split; [|reflexivity]].
    + vm_compute. reflexivity.
    + repeat constructor.
  - vm_compute. reflexivity.
Defined.

(** ** [require_auth] *)

Section require_auth_facts.
Variable parse_qsl : string -> option (list (string * string)).
Variable py_int : string -> option Z.
Variable hmac_sha256 : list byte -> list byte -> list byte.
Variable json_loads : string -> option json.
Variable token : option string.
Variable now : Q.

Let validate : string -> outcome :=
  validate_init_data parse_qsl py_int hmac_sha256 json_loads token now.
Let authenticate : auth_request -> outcome :=
  require_auth parse_qsl py_int hmac_sha256 json_loads token now.

(** X3. [require_auth] authenticates only requests with a JSON body: a
    header [X-Init-Data] that validates to a non-zero user id yields that
    id on a JSON request and nothing on any other request. On a JSON
    request the body's [initData] is read when the header is missing or
    empty. *)
Theorem require_auth_header_needs_json (header : string) (uid : Z)
  (body : option string) :
  header ≠ EmptyString →
  validate header = Return (JInt uid) → uid ≠ 0 →
  authenticate {| x_init_data := Some header; is_json := true;
                  body_init_data := body |} = Return (JInt uid) ∧
  authenticate {| x_init_data := Some header; is_json := false;
                  body_init_data := body |} = Return JNull ∧
  authenticate {| x_init_data := None; is_json := true;
                  body_init_data := Some header |} = Return (JInt uid) ∧
  authenticate {| x_init_data := Some EmptyString; is_json := true;
                  body_init_data := Some header |} = Return (JInt uid).
Proof.
  intros Hne Hv Huid. unfold validate in Hv.
  unfold authenticate, require_auth, init_data_of. simpl.
  rewrite !(string_eqb_false _ _ Hne), !Hv. simpl.
  destruct (Z.eqb_spec uid 0); [contradiction|]. simpl.
  repeat split.
Qed.

(** X4. Whatever [require_auth] returns is None or truthy; an identity it
    yields is a non-zero user id, which the routes accept as the caller;
    and a request that is not JSON is never authenticated. *)
Theorem require_auth_identity_is_truthy (rq : auth_request) :
  (∀ v, authenticate rq = Return v → v = JNull ∨ truthy v = true) ∧
  (∀ uid, Raid.identity (authenticate rq) = Some uid →
          uid ≠ 0 ∧ Raid.authenticated (Some uid) = Some uid) ∧
  (is_json rq = false → authenticate rq = Return JNull).
Proof.
  assert (H1 : ∀ v, authenticate rq = Return v → v = JNull ∨ truthy v = true).
  { intros v. unfold authenticate, require_auth.
    destruct (init_data_of rq) as [d|]; [|intros [= <-]; tauto].
    destruct (String.eqb d EmptyString); [intros [= <-]; tauto|].
    destruct (validate_init_data _ _ _ _ _ _ d) as [w|e]; [|discriminate].
    destruct (truthy w) eqn:Hw; intros [= <-]; tauto. }
  split; [exact H1|]. split.
  - intros uid Hid. unfold Raid.identity in Hid.
    destruct (authenticate rq) as [[| | n | | | |]|] eqn:Ha; try discriminate.
    injection Hid as ->. destruct (H1 _ eq_refl) as [|Ht]; [discriminate|].
    simpl in Ht. apply negb_true_iff, Z.eqb_neq in Ht.
    split; [exact Ht|]. apply authenticated_caller. exact Ht.
  - intros Hj. unfold authenticate, require_auth, init_data_of. rewrite Hj.
    reflexivity.
Qed.
End require_auth_facts.

Lemma require_auth_header_needs_json_witness :
  Scenario.authenticate {| x_init_data := Some Scenario.signed_payload;
                           is_json := true; body_init_data := None |}
  = Return (JInt 123).
Proof.
  refine (proj1 (require_auth_header_needs_json Ref.parse_qsl Ref.py_int
                   Sha256.hmac_sha256 Ref.json_loads (Some Scenario.bot_token)
                   Scenario.an_hour_later Scenario.signed_payload 123 None
                   _ _ _)).
  - vm_compute. discriminate.
  - vm_compute. reflexivity.
  - lia.
Defined.

(** * Further properties of the raid engine *)

(** ** Digging *)

(** X14. [raid_dig] never changes the database and never answers with
    status 200. For a session of the caller and a cell in [0,48) it answers
    Internal server error (500), whatever the time, the session's status and
    history and the cell: the expiry read from the database is a datetime,
    which [fromisoformat] refuses. *)
Theorem raid_dig_always_fails (now uid sid cell : Z) (s : db)
  (r : raid_session) :
  uid ≠ 0 →
  raid_sessions s !! sid = Some r → player_id r = uid → 0 ≤ cell < 48 →
  raid_dig now (Some uid) (Some sid) (Some cell) s
  = ((error "Internal server error", 500), s) ∧
  (∀ now' auth sid' cell',
      (raid_dig now' auth sid' cell' s).2 = s ∧
      (raid_dig now' auth sid' cell' s).1.2 ≠ 200).
Proof.
  intros Huid Hr Hp Hcell. split.
  - exact (raid_dig_found now uid sid cell s r Huid Hr Hp Hcell).
  - intros now' auth sid' cell'. split; [apply raid_dig_store|].
    unfold raid_dig, fromisoformat. repeat case_match; simpl; lia.
Qed.

Lemma raid_dig_always_fails_witness :
  raid_dig 2000 (Some 7) (Some 1) (Some 24) Scenario.raiding_db
  = ((error "Internal server error", 500), Scenario.raiding_db).
Proof.
  refine (proj1 (raid_dig_always_fails 2000 7 1 24 Scenario.raiding_db
                   Scenario.session_1 _ _ _ _)).
  - lia.
  - vm_compute. reflexivity.
  - reflexivity.
  - lia.
Defined.

(** X20. Rows of other users are answered like rows that do not exist.
    For a session of another player [raid_dig] and [raid_leave] answer
    Session not found, as they do for an unknown session id; for a map of
    another creator [my_tombs_claim] answers Map not found, as for an
    unknown map id. Nothing is changed. *)
Theorem foreign_rows_are_not_found (now uid : Z) (s : db) :
  uid ≠ 0 →
  (∀ sid cell r, raid_sessions s !! sid = Some r → player_id r ≠ uid →
      0 ≤ cell < 48 →
      raid_dig now (Some uid) (Some sid) (Some cell) s =
        ((error "Session not found", 404), s) ∧
      raid_leave now (Some uid) (Some sid) s =
        ((error "Session not found", 404), s)) ∧
  (∀ sid cell, raid_sessions s !! sid = None → 0 ≤ cell < 48 →
      raid_dig now (Some uid) (Some sid) (Some cell) s =
        ((error "Session not found", 404), s) ∧
      raid_leave now (Some uid) (Some sid) s =
        ((error "Session not found", 404), s)) ∧
  (∀ mid m, maps s !! mid = Some m → creator_id m ≠ uid →
      my_tombs_claim now (Some uid) (Some mid) s =
        ((error "Map not found", 404), s)) ∧
  (∀ mid, maps s !! mid = None →
      my_tombs_claim now (Some uid) (Some mid) s =
        ((error "Map not found", 404), s)).
Proof.
  intros Huid.
  assert (Hforeign : ∀ sid r, raid_sessions s !! sid = Some r →
            player_id r ≠ uid → select_session sid uid s = None).
  { intros sid r Hr Hne. unfold select_session. rewrite Hr.
    destruct (Z.eqb_spec (player_id r) uid); [contradiction|reflexivity]. }
  assert (Hmissing : ∀ sid, raid_sessions s !! sid = None →
            select_session sid uid s = None).
  { intros sid Hr. unfold select_session. rewrite Hr. reflexivity. }
  repeat split.
  - unfold raid_dig.
    rewrite (authenticated_caller uid Huid), (cell_in_range cell) by assumption.
    rewrite (Hforeign sid r) by assumption. reflexivity.
  - unfold raid_leave. rewrite (authenticated_caller uid Huid).
    rewrite (Hforeign sid r) by assumption. reflexivity.
  - unfold raid_dig.
    rewrite (authenticated_caller uid Huid), (cell_in_range cell) by assumption.
    rewrite (Hmissing sid) by assumption. reflexivity.
  - unfold raid_leave. rewrite (authenticated_caller uid Huid).
    rewrite (Hmissing sid) by assumption. reflexivity.
  - intros mid m Hm Hne. unfold my_tombs_claim, select_own_map.
    rewrite (authenticated_caller uid Huid), Hm.
    destruct (Z.eqb_spec (creator_id m) uid); [contradiction|reflexivity].
  - intros mid Hm. unfold my_tombs_claim, select_own_map.
    rewrite (authenticated_caller uid Huid), Hm. reflexivity.
Qed.

Lemma foreign_rows_are_not_found_witness :
  raid_dig 2000 (Some 8) (Some 1) (Some 24) Scenario.raiding_db
  = ((error "Session not found", 404), Scenario.raiding_db).
Proof.
  destruct (foreign_rows_are_not_found 2000 8 Scenario.raiding_db
              ltac:(lia)) as [Hforeign _].
  refine (proj1 (Hforeign 1 24 Scenario.session_1 _ _ _)).
  - vm_compute. reflexivity.
  - simpl. lia.
  - lia.
Defined.

(** ** Starting a raid *)

(** X11. A [raid_start] that passes the checks, by a caller whose balance
    covers the fee on a map that exists, answers Internal server error
    (500), whatever the map holds: the selected row is read by position,
    which fails before the commit. The fee, the ledger row and the session
    are rolled back, so users, maps, sessions and ledger are as before;
    the session sequence has advanced by one, for sequences are not rolled
    back. *)
Theorem raid_start_is_rolled_back (now uid mid : Z) (s : db) (u : user_row)
  (m : map_row) :
  uid ≠ 0 → mid ≠ 0 →
  users s !! uid = Some u → Qltb (balance u) fee = false →
  maps s !! mid = Some m →
  let out := raid_start now (Some uid) (Some mid) s in
  out.1 = (error "Internal server error", 500) ∧
  users out.2 = users s ∧
  maps out.2 = maps s ∧
  raid_sessions out.2 = raid_sessions s ∧
  transactions out.2 = transactions s ∧
  maps_seq out.2 = maps_seq s ∧
  raid_sessions_seq out.2 = raid_sessions_seq s + 1.
Proof.
  intros Huid Hmid Hu Hb Hm out. subst out. unfold raid_start.
  rewrite (authenticated_caller uid Huid).
  destruct (Z.eqb_spec mid 0) as [|_]; [contradiction|].
  rewrite Hu, Hb, Hm. simpl. rewrite Hm. simpl. repeat split.
Qed.

Lemma raid_start_is_rolled_back_witness :
  (raid_start 1000 (Some 7) (Some 1) Scenario.published_db).1
  = (error "Internal server error", 500).
Proof.
  refine (proj1 (raid_start_is_rolled_back 1000 7 1 Scenario.published_db
                   (Scenario.player "user_7" 1 5) Scenario.map_1
                   _ _ _ _ _)).
  - lia.
  - lia.
  - vm_compute. reflexivity.
  - vm_compute. reflexivity.
  - vm_compute. reflexivity.
Defined.

(** X12. The refusals of [raid_start] charge nothing and change nothing:
    Missing map_id when the map id is absent or 0, Insufficient balance for
    a caller without a user row or with a balance below the fee,
    Map not found for an id that names no map. *)
Theorem raid_start_refusals_are_free (now uid : Z) (s : db) :
  uid ≠ 0 →
  (∀ mid, users s !! uid = None →
      raid_start now (Some uid) (Some mid) s =
        ((error (if mid =? 0 then "Missing map_id" else "Insufficient balance"),
          400), s)) ∧
  (∀ mid u, mid ≠ 0 → users s !! uid = Some u → Qltb (balance u) fee = true →
      raid_start now (Some uid) (Some mid) s =
        ((error "Insufficient balance", 400), s)) ∧
  (∀ mid u, mid ≠ 0 → users s !! uid = Some u → Qltb (balance u) fee = false →
      maps s !! mid = None →
      raid_start now (Some uid) (Some mid) s = ((error "Map not found", 404), s)) ∧
  raid_start now (Some uid) None s = ((error "Missing map_id", 400), s) ∧
  raid_start now (Some uid) (Some 0) s = ((error "Missing map_id", 400), s).
Proof.
  intros Huid. unfold raid_start. rewrite (authenticated_caller uid Huid).
  repeat split.
  - intros mid Hu. destruct (mid =? 0); [reflexivity|]. rewrite Hu. reflexivity.
  - intros mid u Hmid Hu Hb.
    destruct (Z.eqb_spec mid 0) as [|_]; [contradiction|].
    rewrite Hu, Hb. reflexivity.
  - intros mid u Hmid Hu Hb Hm.
    destruct (Z.eqb_spec mid 0) as [|_]; [contradiction|].
    rewrite Hu, Hb, Hm. reflexivity.
Qed.

Lemma raid_start_refusals_are_free_witness :
  raid_start 1000 (Some 9) (Some 1) Scenario.published_db
  = ((error "Insufficient balance", 400), Scenario.published_db).
Proof.
  destruct (raid_start_refusals_are_free 1000 9 Scenario.published_db
              ltac:(lia)) as [Hunknown _].
  refine (Hunknown 1 _). vm_compute. reflexivity.
Defined.

(** ** Publishing *)

(** X7. A successful [maps_create] stores the map under the next id of the
    sequence, which was free, and advances the sequence by one. The stored
    map has the caller as its creator, the submitted grid, an empty dug
    list and difficulty 1.0; it is active and not archived. Every other map,
    every other user, all sessions and the ledger stay as they were; of the
    caller's row only the builder credits change, by one. *)
Theorem maps_create_frame (uid : Z) (grid : list Z) (s : db) (u : user_row) :
  uid ≠ 0 →
  sequences_ahead s →
  valid_grid grid →
  users s !! uid = Some u → 1 ≤ builder_credits u →
  let out := maps_create (Some uid) (Some grid) s in
  let mid := maps_seq s in
  out.1 = ok success ∧
  maps s !! mid = None ∧
  maps out.2 !! mid =
    Some {| creator_id := uid; grid_json := Parsed grid;
            dug_json := Parsed []; difficulty := 1%Q; active := true;
            is_archived := false |} ∧
  (∀ k, k ≠ mid → maps out.2 !! k = maps s !! k) ∧
  maps_seq out.2 = mid + 1 ∧
  users out.2 !! uid =
    Some {| username := username u; balance := balance u;
            builder_credits := builder_credits u - 1 |} ∧
  (∀ k, k ≠ uid → users out.2 !! k = users s !! k) ∧
  raid_sessions out.2 = raid_sessions s ∧
  transactions out.2 = transactions s.
Proof.
  intros Huid [Hseq _] Hvalid Hu Hc out mid. subst out mid.
  rewrite (maps_create_valid uid grid s Hvalid).
  rewrite (authenticated_caller uid Huid), Hu.
  destruct (Z.leb_spec (builder_credits u) 0) as [|_]; [lia|].
  simpl. split; [reflexivity|]. split.
  { destruct (maps s !! maps_seq s) as [m|] eqn:Hm; [|reflexivity].
    specialize (Hseq _ _ Hm). lia. }
  split; [apply lookup_insert_eq|].
  split; [intros k Hk; rewrite lookup_insert_ne by congruence; reflexivity|].
  split; [reflexivity|].
  split; [rewrite lookup_alter_eq, Hu; reflexivity|].
  split; [intros k Hk; rewrite lookup_alter_ne by congruence; reflexivity|].
  split; reflexivity.
Qed.

Lemma maps_create_frame_witness :
  maps Scenario.published_db !! 1 = Some Scenario.map_1 ∧
  maps_seq Scenario.published_db = 2.
Proof.
  pose proof (maps_create_frame 5 Scenario.walled_grid Scenario.fresh_db
                (Scenario.player "user_5" 1 5) ltac:(lia)
                fresh_db_sequences_ahead walled_grid_valid
                ltac:(vm_compute; reflexivity) ltac:(simpl; lia))
    as (_ & _ & Hmap & _ & Hseq & _).
  split; [exact Hmap|exact Hseq].
Defined.

Lemma safe_cells_from_fresh k grid :
  safe_cells_from k grid [] = count_code 0 grid + count_code 4 grid.
Proof.
  revert k. induction grid as [|x grid IH]; intros k; [reflexivity|].
  cbn [safe_cells_from count_code]. rewrite IH. unfold py_in. simpl.
  destruct (Z.eqb_spec x 0) as [->|H0]; [simpl; lia|].
  destruct (Z.eqb_spec x 4) as [->|H4]; simpl; lia.
Qed.

(** X9. Right after publishing a valid grid, before any raid, the owner
    can claim the tomb reward exactly when the grid has fewer than 10 empty
    cells (with the 2 chest cells, fewer than 12 safe cells). With 10 empty
    cells or more the claim is refused with Not ready to claim and changes
    nothing. *)
Theorem fresh_map_claimable_iff (now uid : Z) (grid : list Z) (s : db)
  (u : user_row) :
  uid ≠ 0 →
  valid_grid grid →
  users s !! uid = Some u → 1 ≤ builder_credits u →
  let s1 := (maps_create (Some uid) (Some grid) s).2 in
  let out := my_tombs_claim now (Some uid) (Some (maps_seq s)) s1 in
  (out.1 = ok (claimed claim_reward) ↔ (count_occ Z.eq_dec grid 0%Z < 10)%nat) ∧
  ((10 ≤ count_occ Z.eq_dec grid 0%Z)%nat →
   out = ((error "Not ready to claim", 400), s1)).
Proof.
  intros Huid Hvalid Hu Hc s1 out. subst out s1.
  rewrite (maps_create_valid uid grid s Hvalid).
  rewrite (authenticated_caller uid Huid), Hu.
  destruct (Z.leb_spec (builder_credits u) 0) as [|_]; [lia|].
  cbn [snd]. unfold my_tombs_claim.
  rewrite (authenticated_caller uid Huid).
  unfold select_own_map, published, insert_map. cbn [maps update_users].
  rewrite lookup_insert_eq. cbn [creator_id]. rewrite Z.eqb_refl.
  cbn [grid_json dug_json json_dumps json_loads].
  unfold safe_cells. rewrite safe_cells_from_fresh, !count_code_count_occ.
  destruct Hvalid as (_ & _ & _ & H4 & _). rewrite H4, Z.geb_leb.
  destruct (Z.leb_spec 12 (Z.of_nat (count_occ Z.eq_dec grid 0)
                           + Z.of_nat 2)) as [Hge|Hlt]; cbn [fst].
  - split; [split; [discriminate|lia]|]. intros _. reflexivity.
  - split; [split; [lia|reflexivity]|]. lia.
Qed.

Lemma fresh_map_claimable_iff_witness :
  (my_tombs_claim 1000 (Some 5) (Some 1)
     (maps_create (Some 5) (Some Scenario.fortress_grid)
        Scenario.fresh_db).2).1
  = ok (claimed claim_reward).
Proof.
  refine (proj2 (proj1 (fresh_map_claimable_iff 1000 5 Scenario.fortress_grid
                          Scenario.fresh_db (Scenario.player "user_5" 1 5)
                          _ _ _ _)) _).
  - lia.
  - exact fortress_grid_valid.
  - vm_compute. reflexivity.
  - simpl. lia.
  - simpl. lia.
Defined.

Lemma seq_shift_map {A : Type} (f : nat → A) (n : nat) :
  map f (seq 1 n) = map (fun i => f (S i)) (seq 0 n).
Proof. rewrite <- seq_shift, map_map. reflexivity. Qed.

(** X8. A caller with [c] builder credits who submits [n] valid grids in
    a row has the first [c] accepted and the others refused with
    No credits; [max 0 (c - n)] credits are left and the balance is the
    same. *)
Theorem credits_bound_publishing (uid : Z) (grids : list (list Z)) (s : db)
  (u : user_row) :
  uid ≠ 0 →
  Forall valid_grid grids →
  users s !! uid = Some u → 0 ≤ builder_credits u →
  let out :=
    serve (map (fun g => POST_maps_create (Some uid) (Some g)) grids) s in
  out.1 =
    map (fun i => if Z.of_nat i <? builder_credits u then ok success
                  else (error "No credits", 400))
        (seq 0 (length grids)) ∧
  ∃ u', users out.2 !! uid = Some u' ∧
        builder_credits u' =
          Z.max 0 (builder_credits u - Z.of_nat (length grids)) ∧
        balance u' = balance u.
Proof.
  intros Huid Hvalid. revert s u.
  induction Hvalid as [|g grids Hg Hgs IH]; intros s u Hu Hc out.
  - subst out. simpl. split; [reflexivity|].
    exists u. repeat split; [exact Hu|lia].
  - subst out. cbn [map serve handle].
    rewrite (maps_create_valid uid g s Hg).
    rewrite (authenticated_caller uid Huid), Hu.
    destruct (Z.leb_spec (builder_credits u) 0) as [Hz|Hpos].
    + assert (Hzero : builder_credits u = 0) by lia.
      specialize (IH s u Hu Hc). cbv zeta in IH.
      destruct (serve _ s) as [rs s2] eqn:Hs. simpl in IH.
      destruct IH as [Hrs (u' & Hu' & Hc' & Hb')].
      cbn [fst snd length seq map]. split.
      * rewrite Hzero. simpl. f_equal. rewrite Hrs, seq_shift_map.
        apply map_ext. intros i. rewrite Hzero.
        destruct (Z.ltb_spec (Z.of_nat i) 0), (Z.ltb_spec (Z.of_nat (S i)) 0);
          try lia; reflexivity.
      * exists u'. repeat split; [exact Hu'| |exact Hb']. rewrite Hc'. lia.
    + set (u1 := set_builder_credits (fun c => c - 1) u).
      assert (Hu1 : users (published uid g s) !! uid = Some u1).
      { simpl. rewrite lookup_alter_eq, Hu. reflexivity. }
      assert (Hc1 : 0 ≤ builder_credits u1) by (simpl; lia).
      specialize (IH (published uid g s) u1 Hu1 Hc1). cbv zeta in IH.
      destruct (serve _ (published uid g s)) as [rs s2] eqn:Hs. simpl in IH.
      destruct IH as [Hrs (u' & Hu' & Hc' & Hb')].
      cbn [fst snd length seq map]. split.
      * destruct (Z.ltb_spec (Z.of_nat 0) (builder_credits u)); [|lia].
        f_equal. rewrite Hrs, seq_shift_map.
        apply map_ext. intros i.
        destruct (Z.ltb_spec (Z.of_nat i) (builder_credits u - 1)),
                 (Z.ltb_spec (Z.of_nat (S i)) (builder_credits u));
          try lia; reflexivity.
      * exists u'. repeat split; [exact Hu'| |exact Hb'].
        rewrite Hc'. simpl. lia.
Qed.

Lemma credits_bound_publishing_witness :
  (serve (map (fun g => POST_maps_create (Some 5) (Some g))
            (replicate 6 Scenario.walled_grid)) Scenario.fresh_db).1
  = replicate 5 (ok success) ++ [(error "No credits", 400)].
Proof.
  refine (proj1 (credits_bound_publishing 5
                   (replicate 6 Scenario.walled_grid) Scenario.fresh_db
                   (Scenario.player "user_5" 1 5) _ _ _ _)).
  - lia.
  - apply Forall_replicate, walled_grid_valid.
  - vm_compute. reflexivity.
  - simpl. lia.
Defined.

(** ** Runs *)

(** X22. A request to one of the five writing routes that is not answered
    with status 200 leaves the users, the maps, the sessions, the ledger and
    the map sequence exactly as they were. Only a [raid_start] can have
    moved the session sequence, by one: it drew an id for the session it
    did not commit. A request to another route leaves the whole database as
    it was. *)
Theorem refused_request_changes_nothing (rq : request) (s : db) :
  (handle rq s).1.2 ≠ 200 →
  let s' := (handle rq s).2 in
  users s' = users s ∧ maps s' = maps s ∧
  raid_sessions s' = raid_sessions s ∧ transactions s' = transactions s ∧
  maps_seq s' = maps_seq s ∧
  (raid_sessions_seq s' = raid_sessions_seq s ∨
   raid_sessions_seq s' = raid_sessions_seq s + 1 ∧
   ∃ now auth mid, rq = POST_raid_start now auth mid) ∧
  ((∀ now auth mid, rq ≠ POST_raid_start now auth mid) → s' = s).
Proof.
  assert (Hsame : ∀ x : db,
            users x = users x ∧ maps x = maps x ∧
            raid_sessions x = raid_sessions x ∧
            transactions x = transactions x ∧ maps_seq x = maps_seq x ∧
            (raid_sessions_seq x = raid_sessions_seq x ∨
             raid_sessions_seq x = raid_sessions_seq x + 1 ∧
             ∃ now auth mid, rq = POST_raid_start now auth mid) ∧
            ((∀ now auth mid, rq ≠ POST_raid_start now auth mid) → x = x)).
  { intros x. repeat split. left. reflexivity. }
  destruct rq as [auth grid|now auth k|now auth sid cell|now auth sid|now auth k];
    simpl.
  - unfold maps_create. repeat case_match; simpl; try congruence.
    all: intros _; apply Hsame.
  - intros _.
    destruct (raid_start_store now auth k s) as ((Hu & Hm & Hr & Ht) & Hq & Hs).
    repeat (split; [assumption|]). split.
    + assert (Hcases : raid_sessions_seq (raid_start now auth k s).2
                       = raid_sessions_seq s
                       ∨ raid_sessions_seq (raid_start now auth k s).2
                         = raid_sessions_seq s + 1) by lia.
      destruct Hcases as [H|H]; [left; exact H|right].
      split; [exact H|]. exists now, auth, k. reflexivity.
    + intros H. exfalso. exact (H now auth k eq_refl).
  - intros _. rewrite raid_dig_store. apply Hsame.
  - unfold raid_leave. repeat case_match; simpl; try congruence.
    all: intros _; apply Hsame.
  - unfold my_tombs_claim. repeat case_match; simpl; try congruence.
    all: intros _; apply Hsame.
Qed.

Lemma refused_request_changes_nothing_witness :
  let s := Scenario.published_db in
  let s' := (handle (POST_raid_start 1000 (Some 7) (Some 1)) s).2 in
  users s' = users s ∧ maps s' = maps s ∧
  raid_sessions s' = raid_sessions s ∧ transactions s' = transactions s ∧
  maps_seq s' = maps_seq s.
Proof.
  pose proof (refused_request_changes_nothing
                (POST_raid_start 1000 (Some 7) (Some 1)) Scenario.published_db
                ltac:(vm_compute; discriminate))
    as (Hu & Hm & Hr & Ht & Hq & _).
  repeat split; assumption.
Defined.

(** At the failing start of the scenario the session sequence moves from 1
    to 2 and no session is stored. *)
Example failed_start_draws_an_id :
  let s := Scenario.published_db in
  let out := handle (POST_raid_start 1000 (Some 7) (Some 1)) s in
  out.1 = (error "Internal server error", 500) ∧
  raid_sessions_seq s = 1 ∧ raid_sessions_seq out.2 = 2 ∧
  raid_sessions out.2 = ∅ ∧ out.2 ≠ s.
Proof. vm_compute. repeat split; try reflexivity. discriminate. Qed.





(** Two leaves of the earning session: the ledger books one cent twice and
    the balance of ninety cents goes to 0.90999997 and then to 0.91999996,
    the values that the replay of the two rows gives. *)
Example ledger_explains_two_leaves :
  let s := Scenario.earning_db in
  let s' := (serve [POST_raid_leave 5000 (Some 7) (Some 1);
                    POST_raid_leave 6000 (Some 7) (Some 1)] s).2 in
  (amount <$> transactions s') = [Scenario.one_cent; Scenario.one_cent] ∧
  (user_id <$> transactions s') = [7; 7] ∧
  balance <$> users s !! 7 = Some (7549747 # 8388608)%Q ∧
  balance <$> users s' !! 7 = Some (7717519 # 8388608)%Q ∧
  replay 7 (7549747 # 8388608) (transactions s') = (7717519 # 8388608)%Q.
Proof. vm_compute. repeat split; reflexivity. Qed.

Lemma handle_solvent rq s : solvent s → solvent (handle rq s).2.
Proof.
  intros Hs. pose proof Hs as [Hu Hr].
  destruct rq as [auth grid|now auth k|now auth sid cell|now auth sid|now auth k];
    simpl.
  - unfold maps_create. repeat case_match; simpl; try exact Hs.
    split; simpl; [|exact Hr]. intros j x Hj.
    apply lookup_alter_Some in Hj as [(-> & y & Hy & ->)|[_ Hy]];
      [|exact (Hu _ _ Hy)].
    destruct (Hu _ _ Hy) as [Hb Hc]. simpl. split; [exact Hb|].
    match goal with H : (builder_credits _ <=? 0) = false |- _ =>
      apply Z.leb_gt in H end.
    match goal with
    | H1 : users _ !! _ = Some ?u |- _ => assert (y = u) as -> by congruence
    end.
    lia.
  - destruct (raid_start_store now auth k s) as ((Hus & _ & Hrs & _) & _).
    split; [rewrite Hus; exact Hu|rewrite Hrs; exact Hr].
  - rewrite raid_dig_store. exact Hs.
  - unfold raid_leave, add_to_balance.
    repeat case_match; simplify_eq; simpl; try exact Hs.
    all: split; simpl; intros j x Hj.
    all: try (apply lookup_alter_Some in Hj as [(-> & y & Hy & ->)|[_ Hy]];
              exact (Hr _ _ Hy)).
    + apply lookup_alter_Some in Hj as [(-> & y & Hy & ->)|[_ Hy]];
        [|exact (Hu _ _ Hy)].
      destruct (Hu _ _ Hy) as [Hb Hc]. simpl. split; [|exact Hc].
      match goal with
      | H : real_plus _ _ = Some _ |- _ =>
          apply real_plus_Some in H as [-> _]
      end.
      match goal with
      | H : select_session _ _ _ = Some ?r |- _ =>
          apply select_session_Some in H as [H _];
          apply real_sum_nonneg; [|exact (Hr _ _ H)]
      end.
      match goal with
      | H1 : users _ !! _ = Some ?a |- (0 <= balance ?a)%Q =>
          exact (proj1 (Hu _ _ H1))
      end.
    + exact (Hu _ _ Hj).
  - unfold my_tombs_claim. repeat case_match; simpl; try exact Hs.
    split; simpl; [|exact Hr]. intros j x Hj.
    apply lookup_alter_Some in Hj as [(-> & y & Hy & ->)|[_ Hy]];
      [|exact (Hu _ _ Hy)].
    destruct (Hu _ _ Hy) as [Hb Hc]. simpl. split; [|exact Hc].
    apply real_sum_nonneg; [exact Hb|discriminate].
Qed.

(** X24. Nothing goes negative: when no balance, no count of builder
    credits and no earnings buffer is negative, none is after any sequence
    of requests. *)
Theorem runs_keep_solvency (rqs : list request) (s : db) :
  solvent s → solvent (serve rqs s).2.
Proof.
  revert s. induction rqs as [|rq rqs IH]; intros s Hs; [exact Hs|].
  rewrite serve_cons. apply IH, handle_solvent, Hs.
Qed.

Lemma runs_keep_solvency_witness :
  solvent (serve (POST_maps_create (Some 5) (Some Scenario.walled_grid)
                    :: Scenario.example_run) Scenario.fresh_db).2.
Proof.
  exact (runs_keep_solvency
           (POST_maps_create (Some 5) (Some Scenario.walled_grid)
              :: Scenario.example_run) Scenario.fresh_db fresh_db_solvent).
Defined.

Lemma session_evolves_refl r : session_evolves r r.
Proof.
  repeat split; try apply Qle_refl. exists []. rewrite app_nil_r. reflexivity.
Qed.

Lemma session_evolves_trans r1 r2 r3 :
  session_evolves r1 r2 → session_evolves r2 r3 → session_evolves r1 r3.
Proof.
  intros (Hp1 & Hm1 & Hc1 & He1 & Hq1 & o1 & Hh1)
         (Hp2 & Hm2 & Hc2 & He2 & Hq2 & o2 & Hh2).
  repeat split; try congruence.
  - eapply Qle_trans; eassumption.
  - exists (o1 ++ o2). rewrite Hh2, Hh1, app_assoc. reflexivity.
Qed.

Lemma session_evolves_status st r : session_evolves r (set_status st r).
Proof.
  repeat split; try apply Qle_refl. exists []. rewrite app_nil_r. reflexivity.
Qed.

Ltac same_session r := exists r; split; [assumption|apply session_evolves_refl].

Lemma handle_session_evolves rq s sid r :
  sequences_ahead s → raid_sessions s !! sid = Some r →
  ∃ r', raid_sessions (handle rq s).2 !! sid = Some r' ∧ session_evolves r r'.
Proof.
  intros _ Hr.
  destruct rq as [auth grid|now auth k|now auth sid' cell|now auth sid'|now auth k];
    simpl.
  - unfold maps_create. repeat case_match; simpl; try same_session r.
  - destruct (raid_start_store now auth k s) as ((_ & _ & -> & _) & _).
    same_session r.
  - rewrite raid_dig_store. same_session r.
  - unfold raid_leave, add_to_balance.
    repeat case_match; simplify_eq; simpl; try same_session r.
    all: match goal with
         | |- ∃ r', alter _ ?k _ !! ?j = Some r' ∧ _ =>
             destruct (decide (k = j)) as [->|Hne];
             [ rewrite lookup_alter_eq, Hr; simpl; eexists;
               split; [reflexivity|]; apply session_evolves_status
             | rewrite lookup_alter_ne by exact Hne; same_session r ]
         end.
  - unfold my_tombs_claim. repeat case_match; simpl; try same_session r.
Qed.

(** X25. A session is never deleted nor handed over: after any sequence
    of requests it is still stored under its id, with the same player, map,
    creation time and expiry; its earnings have not decreased and its
    history has only been extended. *)
Theorem runs_keep_sessions (rqs : list request) (s : db) (sid : Z)
  (r : raid_session) :
  sequences_ahead s → raid_sessions s !! sid = Some r →
  ∃ r', raid_sessions (serve rqs s).2 !! sid = Some r' ∧ session_evolves r r'.
Proof.
  revert s r. induction rqs as [|rq rqs IH]; intros s r Hs Hr.
  - exists r. split; [exact Hr|apply session_evolves_refl].
  - rewrite serve_cons.
    destruct (handle_session_evolves rq s sid r Hs Hr) as (r1 & Hr1 & He1).
    destruct (IH _ r1 (handle_sequences_ahead rq s Hs) Hr1) as (r2 & Hr2 & He2).
    exists r2. split; [exact Hr2|]. eapply session_evolves_trans; eassumption.
Qed.

Lemma runs_keep_sessions_witness :
  ∃ r', raid_sessions
          (serve (tail Scenario.example_run) Scenario.raiding_db).2 !! 1
        = Some r' ∧ session_evolves Scenario.session_1 r'.
Proof.
  refine (runs_keep_sessions (tail Scenario.example_run) Scenario.raiding_db 1
            Scenario.session_1 raiding_db_sequences_ahead _).
  vm_compute. reflexivity.
Defined.




(** * Properties of the other routes *)

(** ** Login *)

Lemma active_sessions_spec uid s sid r :
  active_sessions uid s !! sid = Some r ↔
  raid_sessions s !! sid = Some r ∧ player_id r = uid ∧ status r = active_status.
Proof.
  unfold active_sessions. rewrite map_lookup_filter_Some. simpl.
  split; intros (H1 & H2 & H3); repeat split; try assumption.
  - destruct (status r); try discriminate. reflexivity.
  - rewrite H3. reflexivity.
Qed.

(** X5. [login] of an authenticated caller answers 200 with the caller's
    user row. A caller unknown so far is registered under the name
    [user_] followed by the id in decimal, with balance 1.0 and 5 builder
    credits; for a known caller the row is
    returned and the database stays as it is. The active session reported is
    one of the caller's sessions with status active, and none is reported
    only when the caller has none. Other users, the maps, the sessions and
    the ledger are untouched, and a second login changes nothing. *)
Theorem login_registers_once
  (fetchone : gmap Z raid_session → option (Z * raid_session))
  (uid : Z) (s : db) :
  uid ≠ 0 →
  hands_out fetchone →
  let out := login fetchone (Some uid) s in
  (∃ user session,
      out.1 = (logged_in uid user session, 200) ∧
      users out.2 !! uid = Some user ∧
      (users s !! uid = None →
       username user = "user_" +:+ NilZero.string_of_int (Z.to_int uid) ∧
       balance user = 1%Q ∧ builder_credits user = 5) ∧
      (∀ u, users s !! uid = Some u → user = u ∧ out.2 = s) ∧
      match session with
      | Some (sid, r) =>
          raid_sessions s !! sid = Some r ∧ player_id r = uid ∧
          status r = active_status
      | None =>
          ∀ sid r, raid_sessions s !! sid = Some r → player_id r = uid →
                   status r ≠ active_status
      end) ∧
  (∀ k, k ≠ uid → users out.2 !! k = users s !! k) ∧
  maps out.2 = maps s ∧ raid_sessions out.2 = raid_sessions s ∧
  transactions out.2 = transactions s ∧
  (login fetchone (Some uid) out.2).2 = out.2.
Proof.
  intros Huid Hfetch out. subst out. unfold login.
  rewrite (authenticated_caller uid Huid).
  assert (Hsession : ∀ s1, raid_sessions s1 = raid_sessions s →
    match fetchone (active_sessions uid s1) with
    | Some (sid, r) =>
        raid_sessions s !! sid = Some r ∧ player_id r = uid ∧
        status r = active_status
    | None =>
        ∀ sid r, raid_sessions s !! sid = Some r → player_id r = uid →
                 status r ≠ active_status
    end).
  { intros s1 Hs1. pose proof (Hfetch (active_sessions uid s1)) as Hf.
    destruct (fetchone (active_sessions uid s1)) as [[sid r]|].
    - apply active_sessions_spec in Hf. rewrite Hs1 in Hf. exact Hf.
    - intros sid r Hr Hp Hact.
      assert (Hin : active_sessions uid s1 !! sid = Some r).
      { apply active_sessions_spec. rewrite Hs1. repeat split; assumption. }
      rewrite Hf, lookup_empty in Hin. discriminate. }
  destruct (users s !! uid) as [u|] eqn:Hu; simpl.
  - split.
    { exists u, (fetchone (active_sessions uid s)).
      split; [reflexivity|]. split; [exact Hu|]. split; [discriminate|].
      split; [intros u' [= <-]; split; reflexivity|].
      apply Hsession. reflexivity. }
    split; [reflexivity|]. do 3 (split; [reflexivity|]).
    rewrite Hu. reflexivity.
  - split.
    { exists (new_user uid),
        (fetchone (active_sessions uid
                     (update_users (insert uid (new_user uid)) s))).
      split; [reflexivity|]. split; [apply lookup_insert_eq|].
      split; [intros _; repeat split|]. split; [discriminate|].
      apply Hsession. reflexivity. }
    split; [intros k Hk; rewrite lookup_insert_ne by congruence; reflexivity|].
    do 3 (split; [reflexivity|]).
    rewrite lookup_insert_eq. reflexivity.
Qed.

Lemma login_registers_once_witness :
  let out := login first_row (Some 9) Scenario.fresh_db in
  users Scenario.fresh_db !! 9 = None ∧
  out.1 = (logged_in 9 {| username := "user_9"; balance := 1;
                          builder_credits := 5 |} None, 200) ∧
  users out.2 !! 9
  = Some {| username := "user_9"; balance := 1; builder_credits := 5 |} ∧
  (login first_row (Some 9) out.2).2 = out.2.
Proof.
  pose proof (login_registers_once first_row 9 Scenario.fresh_db
                ltac:(lia) first_row_hands_out)
    as ((user & session & Hout & Hrow & Hnew & _ & _) & _ & _ & _ & _ & Hagain).
  split; [vm_compute; reflexivity|].
  split; [vm_compute; reflexivity|].
  split; [|exact Hagain].
  destruct (Hnew ltac:(vm_compute; reflexivity)) as (Hname & Hbal & Hcred).
  rewrite Hrow. destruct user as [n b c]. simpl in *. subst.
  vm_compute. reflexivity.
Defined.

(** ** Scouting *)

Lemma scout_candidates_spec uid s mid m :
  scout_candidates uid s !! mid = Some m ↔
  maps s !! mid = Some m ∧ active m = true ∧ creator_id m ≠ uid.
Proof. unfold scout_candidates. apply map_lookup_filter_Some. Qed.

(** X10. [raid_scout] never changes the database. It answers
    No maps available exactly when every active map belongs to the caller;
    otherwise it offers an active map of another user and quotes the entry
    fee. *)
Theorem scout_offers_foreign_active_map
  (fetchone : gmap Z map_row → option (Z * map_row)) (uid : Z) (s : db) :
  uid ≠ 0 →
  hands_out fetchone →
  let out := raid_scout fetchone (Some uid) s in
  out.2 = s ∧
  (out.1 = (refused "No maps available", 404) ↔
   ∀ mid m, maps s !! mid = Some m → active m = true → creator_id m = uid) ∧
  (out.1 = (refused "No maps available", 404) ∨
   ∃ mid m, out.1 = (scouted mid fee, 200) ∧
            maps s !! mid = Some m ∧ active m = true ∧ creator_id m ≠ uid).
Proof.
  intros Huid Hfetch out. subst out. unfold raid_scout.
  rewrite (authenticated_caller uid Huid).
  pose proof (Hfetch (scout_candidates uid s)) as Hf.
  destruct (fetchone (scout_candidates uid s)) as [[mid m]|]; simpl.
  - apply scout_candidates_spec in Hf as (Hm & Ha & Hc).
    split; [reflexivity|]. split.
    + split; [discriminate|]. intros Hall. exfalso. apply Hc.
      exact (Hall mid m Hm Ha).
    + right. exists mid, m. repeat split; assumption.
  - split; [reflexivity|]. split; [|left; reflexivity].
    split; [|reflexivity]. intros _ mid m Hm Ha.
    destruct (decide (creator_id m = uid)) as [Heq|Hne]; [exact Heq|].
    assert (Hin : scout_candidates uid s !! mid = Some m).
    { apply scout_candidates_spec. repeat split; assumption. }
    rewrite Hf, lookup_empty in Hin. discriminate.
Qed.

Lemma scout_offers_foreign_active_map_witness :
  (raid_scout first_row (Some 7) Scenario.published_db).2
  = Scenario.published_db.
Proof.
  refine (proj1 (scout_offers_foreign_active_map first_row 7
                   Scenario.published_db _ _)).
  - lia.
  - exact first_row_hands_out.
Defined.

(** ** Listing tombs *)

Lemma count_deaths_in_range grid dug :
  Forall (fun x => 0 ≤ x < Z.of_nat (length grid)) dug →
  count_deaths grid dug = Some (trap_hits grid dug).
Proof.
  unfold trap_hits. induction 1 as [|x dug Hx Hdug IH]; [reflexivity|].
  cbn [count_deaths]. unfold py_index.
  destruct (Z.leb_spec 0 x); [|lia].
  destruct (Z.ltb_spec x (Z.of_nat (length grid))); [|lia]. simpl.
  destruct (lookup_lt_is_Some_2 grid (Z.to_nat x)) as [t Ht]; [lia|].
  rewrite Ht, IH. simpl. f_equal. rewrite filter_cons.
  destruct (Z.eqb_spec t 2) as [->|Hne].
  - rewrite decide_True by exact Ht. simpl length. lia.
  - rewrite decide_False by (rewrite Ht; congruence). lia.
Qed.

Lemma tomb_of_Some mid m t :
  tomb_of mid m = Some t →
  tomb_id t = mid ∧
  ∃ grid dug, grid_json m = Parsed grid ∧ dug_json m = Parsed dug ∧
              can_claim t = (safe_cells grid dug <? 12) ∧
              count_deaths grid dug = Some (deaths t) ∧
              tomb_earnings t = 0%Q.
Proof.
  unfold tomb_of.
  destruct (dug_json m) as [dug|]; [|discriminate].
  destruct (grid_json m) as [grid|]; [|discriminate]. simpl.
  destruct (count_deaths grid dug) as [d|] eqn:Hd; [|discriminate].
  intros [= <-]. split; [reflexivity|]. exists grid, dug.
  repeat split; assumption.
Qed.

Lemma own_maps_spec uid s mid m :
  own_maps uid s !! mid = Some m ↔ maps s !! mid = Some m ∧ creator_id m = uid.
Proof. unfold own_maps. apply map_lookup_filter_Some. Qed.

Lemma claim_agrees now uid s mid m t :
  uid ≠ 0 →
  maps s !! mid = Some m → creator_id m = uid → tomb_of mid m = Some t →
  can_claim t = true ↔
  (my_tombs_claim now (Some uid) (Some mid) s).1 = ok (claimed claim_reward).
Proof.
  intros Huid Hm Hc Ht.
  apply tomb_of_Some in Ht as (_ & grid & dug & Hg & Hd & Hcan & _).
  unfold my_tombs_claim.
  rewrite (authenticated_caller uid Huid).
  rewrite (select_own_map_owned mid uid s m Hm Hc), Hg, Hd, Hcan. simpl.
  rewrite Z.geb_leb.
  destruct (Z.leb_spec 12 (safe_cells grid dug)),
           (Z.ltb_spec (safe_cells grid dug) 12); try lia; simpl.
  - split; discriminate.
  - split; reflexivity.
Qed.

(** X21. [my_tombs] never changes the database. When all maps of the
    caller are readable it lists each of them once and no other map; every
    entry has earnings 0, and its [can_claim] is true exactly when
    [my_tombs_claim] for that map would succeed on the same database. One
    map of the caller that cannot be read makes the whole listing fail with
    status 500. *)
Theorem my_tombs_lists_own_maps (now uid : Z) (s : db) :
  uid ≠ 0 →
  ((∀ mid m, maps s !! mid = Some m → creator_id m = uid →
             is_Some (tomb_of mid m)) →
   ∃ l, my_tombs (Some uid) s = ((tombs l, 200), s) ∧
        NoDup (map tomb_id l) ∧
        (∀ t, t ∈ l ↔
              ∃ m, maps s !! tomb_id t = Some m ∧ creator_id m = uid ∧
                   tomb_of (tomb_id t) m = Some t) ∧
        (∀ t, t ∈ l →
              tomb_earnings t = 0%Q ∧
              (can_claim t = true ↔
               (my_tombs_claim now (Some uid) (Some (tomb_id t)) s).1
               = ok (claimed claim_reward)))) ∧
  ((∃ mid m, maps s !! mid = Some m ∧ creator_id m = uid ∧
             tomb_of mid m = None) →
   my_tombs (Some uid) s = ((refused "Internal server error", 500), s)).
Proof.
  intros Huid. unfold my_tombs. rewrite (authenticated_caller uid Huid).
  set (rows := map_to_list (own_maps uid s)).
  assert (Hrows : ∀ mid m, (mid, m) ∈ rows ↔
            maps s !! mid = Some m ∧ creator_id m = uid).
  { intros mid m. unfold rows. rewrite elem_of_map_to_list.
    apply own_maps_spec. }
  split.
  - intros Hread.
    destruct (mapM (fun km => tomb_of km.1 km.2) rows) as [l|] eqn:Hl.
    2:{ exfalso. apply eq_None_not_Some in Hl. apply Hl.
        apply mapM_is_Some, Forall_forall. intros [mid m] Hin.
        apply Hrows in Hin as [Hm Hc]. exact (Hread mid m Hm Hc). }
    apply mapM_Some in Hl.
    assert (Hids : map tomb_id l = rows.*1).
    { clear Hrows. induction Hl as [|[mid m] t rows' l' Ht _ IH];
        [reflexivity|]. simpl in *.
      apply tomb_of_Some in Ht as [-> _]. f_equal. exact IH. }
    exists l. split; [reflexivity|]. split.
    { rewrite Hids. apply NoDup_fst_map_to_list. }
    assert (Hmem : ∀ t, t ∈ l ↔
              ∃ m, maps s !! tomb_id t = Some m ∧ creator_id m = uid ∧
                   tomb_of (tomb_id t) m = Some t).
    { intros t. split.
      - intros Hin. apply list_elem_of_lookup in Hin as [i Hi].
        destruct (Forall2_lookup_r _ _ _ _ _ Hl Hi) as ([mid m] & Hrow & Ht).
        simpl in Ht. pose proof (tomb_of_Some _ _ _ Ht) as [Hid _].
        subst mid. exists m.
        apply list_elem_of_lookup_2, Hrows in Hrow as [Hm Hc].
        repeat split; assumption.
      - intros (m & Hm & Hc & Ht).
        assert (Hin : (tomb_id t, m) ∈ rows) by (apply Hrows; tauto).
        apply list_elem_of_lookup in Hin as [i Hi].
        destruct (Forall2_lookup_l _ _ _ _ _ Hl Hi) as (t' & Ht' & Heq).
        simpl in Heq. rewrite Ht in Heq. injection Heq as <-.
        eapply list_elem_of_lookup_2, Ht'. }
    split; [exact Hmem|].
    intros t Hin. apply Hmem in Hin as (m & Hm & Hc & Ht). split.
    + apply tomb_of_Some in Ht as (_ & g & d & _ & _ & _ & _ & He). exact He.
    + exact (claim_agrees now uid s (tomb_id t) m t Huid Hm Hc Ht).
  - intros (mid & m & Hm & Hc & Hnone).
    destruct (mapM (fun km => tomb_of km.1 km.2) rows) as [l|] eqn:Hl;
      [|reflexivity].
    exfalso. assert (Hsome : is_Some (mapM (fun km => tomb_of km.1 km.2) rows))
      by (rewrite Hl; eauto).
    apply mapM_is_Some in Hsome. rewrite Forall_forall in Hsome.
    assert (Hin : (mid, m) ∈ rows) by (apply Hrows; tauto).
    specialize (Hsome _ Hin). simpl in Hsome. rewrite Hnone in Hsome.
    destruct Hsome as [? ?]. discriminate.
Qed.

Lemma my_tombs_lists_own_maps_witness :
  ∃ l, my_tombs (Some 5) Scenario.opened_db
       = ((tombs l, 200), Scenario.opened_db).
Proof.
  destruct (my_tombs_lists_own_maps 1000 5 Scenario.opened_db ltac:(lia))
    as [Hreadable _].
  destruct Hreadable as (l & Hl & _).
  - intros mid m. simpl. rewrite lookup_insert_Some, lookup_empty.
    intros [[_ <-]|[_ ?]] _; [|discriminate].
    vm_compute. eexists. reflexivity.
  - exists l. exact Hl.
Defined.

(** What an entry shows for a readable map whose dug list holds cell
    indices of the grid. *)
Lemma tomb_of_readable mid m grid dug :
  grid_json m = Parsed grid → dug_json m = Parsed dug →
  Forall (fun x => 0 ≤ x < Z.of_nat (length grid)) dug →
  tomb_of mid m =
    Some {| tomb_id := mid; deaths := trap_hits grid dug;
            tomb_earnings := 0%Q; can_claim := safe_cells grid dug <? 12 |}.
Proof.
  intros Hg Hd Hr. unfold tomb_of. rewrite Hg, Hd. simpl.
  rewrite (count_deaths_in_range grid dug Hr). reflexivity.
Qed.

(** ** The editor template *)

Lemma count_code_insert c v g i x :
  g !! i = Some x →
  count_code c (<[i:=v]> g) =
    count_code c g - (if x =? c then 1 else 0) + (if v =? c then 1 else 0).
Proof.
  revert i. induction g as [|y g IH]; intros [|i] Hx; try discriminate.
  - injection Hx as ->. simpl. lia.
  - simpl in Hx. simpl. rewrite (IH i Hx). lia.
Qed.

Lemma template_fold walls g :
  NoDup walls →
  (∀ w, w ∈ walls → 0 ≤ w ∧ g !! Z.to_nat w = Some 0) →
  let g' := fold_left (fun grid w => <[Z.to_nat w := 1]> grid) walls g in
  length g' = length g ∧
  (∀ c, count_code c g' =
        count_code c g + (if c =? 1 then Z.of_nat (length walls) else 0)
        - (if c =? 0 then Z.of_nat (length walls) else 0)) ∧
  (∀ i, g' !! i =
        if bool_decide (Z.of_nat i ∈ walls) then Some 1 else g !! i).
Proof.
  revert g. induction walls as [|w walls IH]; intros g Hnd Hw g'; subst g'.
  - cbn [fold_left]. split; [reflexivity|]. split.
    + intros c. simpl. destruct (c =? 1), (c =? 0); lia.
    + intros i. rewrite bool_decide_eq_false_2 by apply not_elem_of_nil.
      reflexivity.
  - apply NoDup_cons in Hnd as [Hnin Hnd].
    destruct (Hw w) as [Hw0 Hgw]; [left|].
    cbn [fold_left].
    destruct (IH (<[Z.to_nat w:=1]> g) Hnd) as (Hlen & Hcount & Hlook).
    { intros w' Hin. destruct (Hw w') as [Hw'0 Hgw']; [right; exact Hin|].
      split; [exact Hw'0|].
      rewrite list_lookup_insert_ne; [exact Hgw'|].
      intros Heq. apply Z2Nat.inj in Heq; try lia. subst w'. contradiction. }
    split; [rewrite Hlen; apply length_insert|]. split.
    + intros c. rewrite Hcount, (count_code_insert c 1 g _ 0 Hgw).
      cbn [length]. rewrite (Z.eqb_sym 0 c), (Z.eqb_sym 1 c).
      destruct (c =? 1) eqn:E1, (c =? 0) eqn:E0; lia.
    + intros i. rewrite Hlook.
      destruct (decide (Z.of_nat i ∈ walls)) as [Hin|Hin].
      * rewrite (bool_decide_eq_true_2 _ Hin).
        rewrite bool_decide_eq_true_2 by (right; exact Hin). reflexivity.
      * rewrite (bool_decide_eq_false_2 _ Hin).
        destruct (decide (Z.of_nat i = w)) as [Heq|Hne].
        -- rewrite bool_decide_eq_true_2 by (rewrite Heq; left).
           subst w. rewrite Nat2Z.id in *.
           apply list_lookup_insert_eq.
           apply lookup_lt_is_Some. eauto.
        -- rewrite bool_decide_eq_false_2.
           2:{ rewrite not_elem_of_cons. split; assumption. }
           apply list_lookup_insert_ne. intros Heq. apply Hne.
           rewrite <- Heq. rewrite Z2Nat.id; lia.
Qed.

(** X6. Whatever 16 distinct cells are sampled, the grid of
    [editor_template] has 48 cells, a wall at each sampled cell and an empty
    cell everywhere else, so 16 walls and 32 empty cells; it carries no
    trap, pit or chest, and [maps_create] refuses it as it is with
    Invalid placement. *)
Theorem editor_template_grid_shape (walls : list Z) :
  NoDup walls → length walls = 16%nat →
  Forall (fun w => 0 ≤ w < 48) walls →
  let grid := template_grid walls in
  length grid = 48%nat ∧
  count_occ Z.eq_dec grid 1 = 16%nat ∧
  count_occ Z.eq_dec grid 0 = 32%nat ∧
  (∀ i, (i < 48)%nat →
        grid !! i = Some (if bool_decide (Z.of_nat i ∈ walls) then 1 else 0)) ∧
  (∀ uid s, uid ≠ 0 →
        maps_create (Some uid) (Some grid) s =
          ((error "Invalid placement", 400), s)).
Proof.
  intros Hnd Hlen Hrange grid. subst grid. unfold template_grid.
  change (repeat 0 48%nat) with (replicate 48%nat 0).
  destruct (template_fold walls (replicate 48%nat 0) Hnd) as (Hl & Hc & Hi).
  { intros w Hin. rewrite Forall_forall in Hrange.
    specialize (Hrange w Hin). split; [lia|].
    apply lookup_replicate_2. lia. }
  rewrite length_replicate in Hl.
  assert (H1 : count_code 1
                 (fold_left (fun grid w => <[Z.to_nat w:=1]> grid) walls
                    (replicate 48%nat 0)) = 16).
  { rewrite (Hc 1), Hlen. reflexivity. }
  assert (H0 : count_code 0
                 (fold_left (fun grid w => <[Z.to_nat w:=1]> grid) walls
                    (replicate 48%nat 0)) = 32).
  { rewrite (Hc 0), Hlen. reflexivity. }
  assert (H2 : count_code 2
                 (fold_left (fun grid w => <[Z.to_nat w:=1]> grid) walls
                    (replicate 48%nat 0)) = 0).
  { rewrite (Hc 2), Hlen. reflexivity. }
  split; [exact Hl|].
  split; [rewrite count_code_count_occ in H1; lia|].
  split; [rewrite count_code_count_occ in H0; lia|].
  split.
  - intros i Hlt. rewrite Hi, (lookup_replicate_2 48%nat 0 i Hlt).
    destruct (bool_decide (Z.of_nat i ∈ walls)); reflexivity.
  - intros uid s Huid. unfold maps_create.
    rewrite (authenticated_caller uid Huid), Hl, H2. reflexivity.
Qed.

Lemma editor_template_grid_shape_witness :
  count_occ Z.eq_dec (template_grid Scenario.sample_walls) 1 = 16%nat.
Proof.
  refine (proj1 (proj2 (editor_template_grid_shape Scenario.sample_walls
                          _ _ _))).
  - exact sample_walls_distinct.
  - reflexivity.
  - exact sample_walls_in_range.
Defined.
